(** * GST reconciliation and credit-utilization core

    A shallow embedding of the matching engine ([reconcileData] and its
    helpers: the module required as ./reconciliation, whose text is in
    server/src/fileParser.js), of its purchase-side twin
    ([reconcilePurchaseWith2A2B], server/src/gstr2Reconciliation.js) and
    of the credit-utilization waterfall ([computeTaxPayment],
    server/src/gstr3b.js), followed by the properties of the
    specification that were checked against them.

    Conventions of the embedding.
    - Money is an integer number of paise (1/100 rupee), a [Z].  A rupee
      literal [1] of the source is [100] here, [10] is [1000] and so on.
    - Strings are byte strings ([string]); the case conversion and the
      whitespace class are the ASCII ones.
    - A JavaScript [Map] is iterated in insertion order, so the invoice
      index is an association list; a JavaScript [Set] is a [gset]. *)

From Stdlib Require Import ZArith QArith Ascii.
From stdpp Require Import gmap strings list.

Local Open Scope Z_scope.

(* ===================================================================== *)
(** ** JavaScript primitives shared by the modules *)
(* ===================================================================== *)

Module Js.

(** [Math.round(y)] is [floor (y + 1/2)].  The source only rounds
    [x * 100] for a rupee amount [x]; with [x] held as [p] paise that
    argument is the integer [p], and dividing the result by [100]
    again gives rupees, that is, the same count of paise. *)
Definition round2 (p : Z) : Z := (2 * p + 1) / 2.

(** Truthiness of a string value: [undefined] and [''] are falsy. *)
Definition truthy (s : string) : bool :=
  match s with EmptyString => false | String _ _ => true end.

(** Truthiness of a property that may be absent. *)
Definition truthyOpt (o : option string) : bool :=
  match o with None => false | Some s => truthy s end.

(** [\s] and [String.prototype.trim] on ASCII: TAB, LF, VT, FF, CR, SP. *)
Definition isWhitespace (c : ascii) : bool :=
  let n := N_of_ascii c in
  (((9 <=? n) && (n <=? 13)) || (n =? 32))%N.

(** [\d] and [[0-9]]. *)
Definition isDigit (c : ascii) : bool :=
  let n := N_of_ascii c in ((48 <=? n) && (n <=? 57))%N.

Definition toUpperChar (c : ascii) : ascii :=
  let n := N_of_ascii c in
  if ((97 <=? n) && (n <=? 122))%N then ascii_of_N (n - 32) else c.

Fixpoint toUpperCase (s : string) : string :=
  match s with
  | EmptyString => EmptyString
  | String c r => String (toUpperChar c) (toUpperCase r)
  end.

(** Keep the characters that satisfy [p]: [s.replace(/[^p]/g, '')]. *)
Fixpoint keep (p : ascii -> bool) (s : string) : string :=
  match s with
  | EmptyString => EmptyString
  | String c r => if p c then String c (keep p r) else keep p r
  end.

(** Drop the longest prefix whose characters satisfy [p]:
    [s.replace(/^p+/, '')]. *)
Fixpoint dropWhile (p : ascii -> bool) (s : string) : string :=
  match s with
  | EmptyString => EmptyString
  | String c r => if p c then dropWhile p r else s
  end.

(** Drop the longest suffix whose characters satisfy [p]. *)
Fixpoint dropWhileEnd (p : ascii -> bool) (s : string) : string :=
  match s with
  | EmptyString => EmptyString
  | String c r =>
      match dropWhileEnd p r with
      | EmptyString => if p c then EmptyString else String c EmptyString
      | r' => String c r'
      end
  end.

Definition trim (s : string) : string :=
  dropWhileEnd isWhitespace (dropWhile isWhitespace s).

(** [s.padStart(2, '0')]. *)
Definition padStart2 (s : string) : string :=
  match s with
  | EmptyString => "00"
  | String c EmptyString => String "0" (String c EmptyString)
  | _ => s
  end.

End Js.

(* ===================================================================== *)
(** ** gstr3b.js: payment of tax (Table 6) *)
(* ===================================================================== *)

Module Gstr3b.

(** An amount per tax head. *)
Record Heads := mkHeads { igst : Z; cgst : Z; sgst : Z; cess : Z }.

(** The same with the [total] property the source adds afterwards. *)
Record HeadsTotal := mkHeadsTotal
  { h_igst : Z; h_cgst : Z; h_sgst : Z; h_cess : Z; h_total : Z }.

(** The parts of Table 3.1 and Table 4 that [computeTaxPayment] reads. *)
Record Table3_1 := { totalLiability_3_1 : Heads }.
Record Table4 := { netITC : Heads }.

Record Utilization := mkUtilization
  { igstToIgst : Z; igstToCgst : Z; igstToSgst : Z;
    cgstToCgst : Z; cgstToIgst : Z;
    sgstToSgst : Z; sgstToIgst : Z;
    cessTocess : Z }.

Record TaxPayment := mkTaxPayment
  { liability : Heads;
    itcAvailable : Heads;
    utilization : Utilization;
    itcUtilized : HeadsTotal;
    cashPayable : HeadsTotal;
    itcBalance : HeadsTotal;
    totalLiability : Z;
    netPayable : Z;
    interestPayable : Z;
    lateFeeCGST : Z;
    lateFeeSGST : Z }.

Definition withTotal (a b c d : Z) : HeadsTotal :=
  mkHeadsTotal a b c d (a + b + c + d).

(** [computeTaxPayment(table3_1, table4, previousBalance)]; the third
    argument is never read. *)
Definition computeTaxPayment (table3_1 : Table3_1) (table4 : Table4)
    (previousBalance : Heads) : TaxPayment :=
  let liability := totalLiability_3_1 table3_1 in
  let itc := netITC table4 in
  let remainIGST := igst itc in
  let remainCGST := cgst itc in
  let remainSGST := sgst itc in
  let remainCESS := cess itc in
  let payIGST := igst liability in
  let payCGST := cgst liability in
  let paySGST := sgst liability in
  let payCESS := cess liability in
  (* Step 1: IGST ITC against IGST liability *)
  let igstAgainstIgst := Z.min remainIGST payIGST in
  let remainIGST := remainIGST - igstAgainstIgst in
  let payIGST := payIGST - igstAgainstIgst in
  (* Step 2: remaining IGST ITC against CGST liability *)
  let igstAgainstCgst := Z.min remainIGST payCGST in
  let remainIGST := remainIGST - igstAgainstCgst in
  let payCGST := payCGST - igstAgainstCgst in
  (* Step 3: remaining IGST ITC against SGST liability *)
  let igstAgainstSgst := Z.min remainIGST paySGST in
  let remainIGST := remainIGST - igstAgainstSgst in
  let paySGST := paySGST - igstAgainstSgst in
  (* Step 4: CGST ITC against CGST liability *)
  let cgstAgainstCgst := Z.min remainCGST payCGST in
  let remainCGST := remainCGST - cgstAgainstCgst in
  let payCGST := payCGST - cgstAgainstCgst in
  (* Step 5: remaining CGST ITC against IGST liability *)
  let cgstAgainstIgst := Z.min remainCGST payIGST in
  let remainCGST := remainCGST - cgstAgainstIgst in
  let payIGST := payIGST - cgstAgainstIgst in
  (* Step 6: SGST ITC against SGST liability *)
  let sgstAgainstSgst := Z.min remainSGST paySGST in
  let remainSGST := remainSGST - sgstAgainstSgst in
  let paySGST := paySGST - sgstAgainstSgst in
  (* Step 7: remaining SGST ITC against IGST liability *)
  let sgstAgainstIgst := Z.min remainSGST payIGST in
  let remainSGST := remainSGST - sgstAgainstIgst in
  let payIGST := payIGST - sgstAgainstIgst in
  (* Step 8: CESS ITC against CESS liability *)
  let cessAgainstCess := Z.min remainCESS payCESS in
  let remainCESS := remainCESS - cessAgainstCess in
  let payCESS := payCESS - cessAgainstCess in
  let cashPayable :=
    withTotal (Js.round2 (Z.max 0 payIGST)) (Js.round2 (Z.max 0 payCGST))
              (Js.round2 (Z.max 0 paySGST)) (Js.round2 (Z.max 0 payCESS)) in
  let totalLiability :=
    igst liability + cgst liability + sgst liability + cess liability in
  let itcUtilized :=
    withTotal (igst itc - remainIGST) (cgst itc - remainCGST)
              (sgst itc - remainSGST) (cess itc - remainCESS) in
  let itcBalance :=
    withTotal (Js.round2 remainIGST) (Js.round2 remainCGST)
              (Js.round2 remainSGST) (Js.round2 remainCESS) in
  let utilization :=
    mkUtilization igstAgainstIgst igstAgainstCgst igstAgainstSgst
                  cgstAgainstCgst cgstAgainstIgst
                  sgstAgainstSgst sgstAgainstIgst cessAgainstCess in
  {| liability := liability;
     itcAvailable := itc;
     utilization := utilization;
     itcUtilized := itcUtilized;
     cashPayable := cashPayable;
     itcBalance := itcBalance;
     totalLiability := totalLiability;
     netPayable := h_total cashPayable;
     interestPayable := 0;
     lateFeeCGST := 0;
     lateFeeSGST := 0 |}.






Definition nonneg (x : Heads) : Prop :=
  0 <= igst x /\ 0 <= cgst x /\ 0 <= sgst x /\ 0 <= cess x.





End Gstr3b.

(* ===================================================================== *)
(** ** reconciliation.js: the sales-side matching engine *)
(* ===================================================================== *)

Module Reconciliation.

(** An invoice row.  [invoiceNo] may be absent ([None]).  The other
    text properties are only ever tested for truthiness or read through
    [x || ''], and the numeric ones through [parseFloat(x) || 0] or
    [x || 0], so an absent one is the empty string, respectively [0].
    [_source] is the tag [buildInvoiceMap] adds to its copy of a row. *)
Record Invoice := mkInvoice
  { invoiceNo : option string;
    date : string;
    customerGSTIN : string;
    customerName : string;
    taxableAmount : Z;
    cgst : Z;
    sgst : Z;
    igst : Z;
    totalAmount : Z;
    _source : option string }.

(** [{ ...inv, _source: source }] *)
Definition withSource (inv : Invoice) (source : string) : Invoice :=
  {| invoiceNo := invoiceNo inv; date := date inv;
     customerGSTIN := customerGSTIN inv; customerName := customerName inv;
     taxableAmount := taxableAmount inv; cgst := cgst inv;
     sgst := sgst inv; igst := igst inv; totalAmount := totalAmount inv;
     _source := Some source |}.

(** A [Map] from normalized invoice number to the rows that share it,
    in insertion order. *)
Definition InvoiceMap := list (string * list Invoice).

(** [map.get(key)] *)
Fixpoint mapGet (key : string) (map : InvoiceMap) : option (list Invoice) :=
  match map with
  | [] => None
  | (k, bucket) :: rest =>
      if String.eqb k key then Some bucket else mapGet key rest
  end.

(** [if (!map.has(key)) map.set(key, []); map.get(key).push(inv)]:
    a new key goes to the end of the iteration order, an existing
    bucket grows in place. *)
Fixpoint mapPush (key : string) (inv : Invoice) (map : InvoiceMap)
  : InvoiceMap :=
  match map with
  | [] => [(key, [inv])]
  | (k, bucket) :: rest =>
      if String.eqb k key then (k, bucket ++ [inv]) :: rest
      else (k, bucket) :: mapPush key inv rest
  end.

Definition isZeroChar (c : ascii) : bool := (N_of_ascii c =? 48)%N.

(** [normalizeInvoiceNo]: trim, upper-case, remove whitespace, remove
    leading zeros.  Nothing else is removed. *)
Definition normalizeInvoiceNo (invoiceNo : option string) : string :=
  match invoiceNo with
  | None => ""
  | Some s =>
      if negb (Js.truthy s) then ""
      else Js.dropWhile isZeroChar
             (Js.keep (fun c => negb (Js.isWhitespace c))
                (Js.toUpperCase (Js.trim s)))
  end.

(** [buildInvoiceMap(invoices, source)] *)
Definition buildInvoiceMap (invoices : list Invoice) (source : string)
  : InvoiceMap :=
  fold_left
    (fun map inv =>
       if negb (Js.truthyOpt (invoiceNo inv)) then map
       else mapPush (normalizeInvoiceNo (invoiceNo inv))
                    (withSource inv source) map)
    invoices [].

Record FuzzyMatch := mkFuzzyMatch
  { fm_invoice : Invoice; fm_confidence : Q }.

(** The two GSTIN tests shared by both tiers of [findFuzzyMatch]:
    [salesInv.customerGSTIN && gstr1Inv.customerGSTIN &&
     salesInv.customerGSTIN.toUpperCase() ===
     gstr1Inv.customerGSTIN.toUpperCase()]. *)
Definition sameGSTIN (salesInv gstr1Inv : Invoice) : bool :=
  Js.truthy (customerGSTIN salesInv)
  && Js.truthy (customerGSTIN gstr1Inv)
  && String.eqb (Js.toUpperCase (customerGSTIN salesInv))
                (Js.toUpperCase (customerGSTIN gstr1Inv)).

(** The confidence the body of the loop of [findFuzzyMatch] gives to
    one candidate.  The amount test is against the literal [1] (rupee). *)
Definition candidateConfidence (salesInv : Invoice) (salesNo key : string)
    (gstr1Inv : Invoice) : Q :=
  let numericSales := Js.keep Js.isDigit salesNo in
  let numericGSTR1 := Js.keep Js.isDigit key in
  if Js.truthy numericSales && String.eqb numericSales numericGSTR1
     && sameGSTIN salesInv gstr1Inv
  then 9 # 10
  else if sameGSTIN salesInv gstr1Inv
          && (Z.abs (totalAmount salesInv - totalAmount gstr1Inv) <? 100)
  then 7 # 10
  else 0.

(** One iteration of the loop of [findFuzzyMatch]; the state is
    [(bestMatch, bestConfidence)].  A bucket is never empty (see
    [buildInvoiceMap]), the first case only makes the match total. *)
Definition fuzzyStep (salesInv : Invoice) (salesNo : string)
    (processedSet : gset string) (best : option FuzzyMatch * Q)
    (entry : string * list Invoice) : option FuzzyMatch * Q :=
  let '(key, gstr1Invoices) := entry in
  if decide (key ∈ processedSet) then best
  else match gstr1Invoices with
       | [] => best
       | gstr1Inv :: _ =>
           let confidence :=
             candidateConfidence salesInv salesNo key gstr1Inv in
           if negb (Qle_bool confidence (snd best))
              && Qle_bool (7 # 10) confidence
           then (Some (mkFuzzyMatch gstr1Inv confidence), confidence)
           else best
       end.

(** [findFuzzyMatch(salesInv, gstr1Map, processedSet)] *)
Definition findFuzzyMatch (salesInv : Invoice) (gstr1Map : InvoiceMap)
    (processedSet : gset string) : option FuzzyMatch :=
  let salesNo := normalizeInvoiceNo (invoiceNo salesInv) in
  fst (fold_left (fuzzyStep salesInv salesNo processedSet) gstr1Map
                 (None, 0%Q)).

(** *** Dates *)

(** The longest prefix of digits, and the rest. *)
Fixpoint spanDigits (s : string) : string * string :=
  match s with
  | EmptyString => (EmptyString, EmptyString)
  | String c r =>
      if Js.isDigit c
      then let '(d, rest) := spanDigits r in (String c d, rest)
      else (EmptyString, s)
  end.

(** [[-\/.]] *)
Definition isDateSep (c : ascii) : bool :=
  let n := N_of_ascii c in ((n =? 45) || (n =? 47) || (n =? 46))%N.

(** The three digit groups of a string of the shape
    [^\d*[-\/.]\d*[-\/.]\d*$].  Each [\d{m,n}] of the two patterns of
    [normalizeDate] is followed by a separator or by the end of the
    string, so it can only match a maximal run of digits. *)
Definition dateGroups (s : string) : option (string * string * string) :=
  let '(g1, r1) := spanDigits s in
  match r1 with
  | String c1 r1' =>
      if isDateSep c1 then
        let '(g2, r2) := spanDigits r1' in
        match r2 with
        | String c2 r2' =>
            if isDateSep c2 then
              let '(g3, r3) := spanDigits r2' in
              match r3 with
              | EmptyString => Some (g1, g2, g3)
              | String _ _ => None
              end
            else None
        | EmptyString => None
        end
      else None
  | EmptyString => None
  end.

Definition oneOrTwo (s : string) : bool :=
  let n := String.length s in ((n =? 1) || (n =? 2))%nat.

Definition four (s : string) : bool := (String.length s =? 4)%nat.

(** [normalizeDate(dateStr)]: [d-m-yyyy] and [yyyy-m-d] (with [-], [/]
    or [.]) become [yyyy-mm-dd]; anything else is returned trimmed.
    The two patterns exclude each other (the first group has one or two
    digits in the one and four in the other). *)
Definition normalizeDate (dateStr : string) : string :=
  if negb (Js.truthy dateStr) then ""
  else
    let str := Js.trim dateStr in
    let iso (y m d : string) : string :=
      String.append y
        (String.append "-"
           (String.append (Js.padStart2 m)
              (String.append "-" (Js.padStart2 d)))) in
    match dateGroups str with
    | Some (g1, g2, g3) =>
        if oneOrTwo g1 && oneOrTwo g2 && four g3 then iso g3 g2 g1
        else if four g1 && oneOrTwo g2 && oneOrTwo g3 then iso g1 g2 g3
        else str
    | None => str
    end.

(** *** Field comparison *)

(** A value shown in a discrepancy: a number or a string. *)
Inductive Value := VNum (n : Z) | VStr (s : string).

Record Discrepancy := mkDiscrepancy
  { field : string;
    label : string;
    salesValue : Value;
    gstr1Value : Value;
    difference : Value;
    severity : string }.

(** The body of the loop over the five amount fields. *)
Definition compareField (tolerance : Z) (key label : string)
    (salesVal gstr1Val : Z) : list Discrepancy :=
  let diff := salesVal - gstr1Val in
  if tolerance <? Z.abs diff then
    [ {| field := key; label := label;
         salesValue := VNum salesVal; gstr1Value := VNum gstr1Val;
         difference := VNum (Js.round2 diff);
         severity := if 10000 <? Z.abs diff then "high"
                     else if 1000 <? Z.abs diff then "medium"
                     else "low" |} ]
  else [].

Record Comparison := mkComparison
  { c_invoiceNo : option string;
    salesInvoice : Invoice;
    gstr1Invoice : Invoice;
    discrepancies : list Discrepancy;
    totalDifference : Z;
    status : string;
    matchType : string;
    matchConfidence : option Q }.

Definition isEmpty {A} (l : list A) : bool :=
  match l with [] => true | _ :: _ => false end.

(** [compareInvoices(salesInv, gstr1Inv, tolerance)] *)
Definition compareInvoices (salesInv gstr1Inv : Invoice) (tolerance : Z)
  : Comparison :=
  let amounts :=
    compareField tolerance "taxableAmount" "Taxable Amount"
      (taxableAmount salesInv) (taxableAmount gstr1Inv)
    ++ compareField tolerance "cgst" "CGST" (cgst salesInv) (cgst gstr1Inv)
    ++ compareField tolerance "sgst" "SGST" (sgst salesInv) (sgst gstr1Inv)
    ++ compareField tolerance "igst" "IGST" (igst salesInv) (igst gstr1Inv)
    ++ compareField tolerance "totalAmount" "Total Amount"
         (totalAmount salesInv) (totalAmount gstr1Inv) in
  let totalDifference := totalAmount salesInv - totalAmount gstr1Inv in
  let salesGSTIN := Js.trim (Js.toUpperCase (customerGSTIN salesInv)) in
  let gstr1GSTIN := Js.trim (Js.toUpperCase (customerGSTIN gstr1Inv)) in
  let gstin :=
    if Js.truthy salesGSTIN && Js.truthy gstr1GSTIN
       && negb (String.eqb salesGSTIN gstr1GSTIN)
    then [ {| field := "customerGSTIN"; label := "Customer GSTIN";
              salesValue := VStr salesGSTIN; gstr1Value := VStr gstr1GSTIN;
              difference := VStr "Mismatch"; severity := "high" |} ]
    else [] in
  let salesDate := normalizeDate (date salesInv) in
  let gstr1Date := normalizeDate (date gstr1Inv) in
  let dates :=
    if Js.truthy salesDate && Js.truthy gstr1Date
       && negb (String.eqb salesDate gstr1Date)
    then [ {| field := "date"; label := "Invoice Date";
              salesValue := VStr (date salesInv);
              gstr1Value := VStr (date gstr1Inv);
              difference := VStr "Date mismatch"; severity := "medium" |} ]
    else [] in
  let discrepancies := amounts ++ gstin ++ dates in
  {| c_invoiceNo := invoiceNo salesInv;
     salesInvoice := salesInv;
     gstr1Invoice := gstr1Inv;
     discrepancies := discrepancies;
     totalDifference := Js.round2 totalDifference;
     status := if isEmpty discrepancies then "MATCHED" else "MISMATCHED";
     matchType := "exact";
     matchConfidence := None |}.

(** *** The reconciliation result *)

(** [{ ...inv, status, severity, suggestion }] *)
Record Missing := mkMissing
  { m_invoice : Invoice;
    m_status : string;
    m_severity : string;
    m_suggestion : string }.

Record Duplicate := mkDuplicate
  { d_type : string;
    d_invoiceNo : option string;
    d_count : nat;
    d_invoices : list Invoice }.

Record Summary := mkSummary
  { totalSalesInvoices : nat;
    totalGSTR1Invoices : nat;
    n_matched : nat;
    n_mismatched : nat;
    n_missingSalesInGSTR1 : nat;
    n_missingGSTR1InSales : nat;
    totalDiscrepancyAmount : Z }.

(** [validationIssues], [monthlyBreakdown] and [customerBreakdown] are
    written after, and never read by, the code that fills the fields
    below; they are left out. *)
Record Result := mkResult
  { summary : Summary;
    matched : list Comparison;
    mismatched : list Comparison;
    missingSalesInGSTR1 : list Missing;
    missingGSTR1InSales : list Missing;
    duplicates : list Duplicate }.

(** [result.matched.push(c); result.summary.matched++] *)
Definition pushMatched (c : Comparison) (r : Result) : Result :=
  let s := summary r in
  {| summary :=
       mkSummary (totalSalesInvoices s) (totalGSTR1Invoices s)
         (S (n_matched s)) (n_mismatched s) (n_missingSalesInGSTR1 s)
         (n_missingGSTR1InSales s) (totalDiscrepancyAmount s);
     matched := matched r ++ [c];
     mismatched := mismatched r;
     missingSalesInGSTR1 := missingSalesInGSTR1 r;
     missingGSTR1InSales := missingGSTR1InSales r;
     duplicates := duplicates r |}.

(** [result.mismatched.push(c); result.summary.mismatched++;
     result.summary.totalDiscrepancyAmount += Math.abs(c.totalDifference)] *)
Definition pushMismatched (c : Comparison) (r : Result) : Result :=
  let s := summary r in
  {| summary :=
       mkSummary (totalSalesInvoices s) (totalGSTR1Invoices s)
         (n_matched s) (S (n_mismatched s)) (n_missingSalesInGSTR1 s)
         (n_missingGSTR1InSales s)
         (totalDiscrepancyAmount s + Z.abs (totalDifference c));
     matched := matched r;
     mismatched := mismatched r ++ [c];
     missingSalesInGSTR1 := missingSalesInGSTR1 r;
     missingGSTR1InSales := missingGSTR1InSales r;
     duplicates := duplicates r |}.

(** [result.missingSalesInGSTR1.push(m);
     result.summary.missingSalesInGSTR1++] *)
Definition pushMissingSales (m : Missing) (r : Result) : Result :=
  let s := summary r in
  {| summary :=
       mkSummary (totalSalesInvoices s) (totalGSTR1Invoices s)
         (n_matched s) (n_mismatched s) (S (n_missingSalesInGSTR1 s))
         (n_missingGSTR1InSales s) (totalDiscrepancyAmount s);
     matched := matched r;
     mismatched := mismatched r;
     missingSalesInGSTR1 := missingSalesInGSTR1 r ++ [m];
     missingGSTR1InSales := missingGSTR1InSales r;
     duplicates := duplicates r |}.

(** [result.missingGSTR1InSales.push(m);
     result.summary.missingGSTR1InSales++] *)
Definition pushMissingGSTR1 (m : Missing) (r : Result) : Result :=
  let s := summary r in
  {| summary :=
       mkSummary (totalSalesInvoices s) (totalGSTR1Invoices s)
         (n_matched s) (n_mismatched s) (n_missingSalesInGSTR1 s)
         (S (n_missingGSTR1InSales s)) (totalDiscrepancyAmount s);
     matched := matched r;
     mismatched := mismatched r;
     missingSalesInGSTR1 := missingSalesInGSTR1 r;
     missingGSTR1InSales := missingGSTR1InSales r ++ [m];
     duplicates := duplicates r |}.

(** [result.duplicates.push(d)] *)
Definition pushDuplicate (d : Duplicate) (r : Result) : Result :=
  {| summary := summary r;
     matched := matched r;
     mismatched := mismatched r;
     missingSalesInGSTR1 := missingSalesInGSTR1 r;
     missingGSTR1InSales := missingGSTR1InSales r;
     duplicates := duplicates r ++ [d] |}.

(** The [if (comparison.discrepancies.length === 0) ... else ...] block
    that both the exact and the fuzzy branch end with. *)
Definition classify (comparison : Comparison) (r : Result) : Result :=
  if isEmpty (discrepancies comparison) then pushMatched comparison r
  else pushMismatched comparison r.

(** [comparison.matchType = 'fuzzy';
     comparison.matchConfidence = fuzzyMatch.confidence] *)
Definition markFuzzy (c : Comparison) (confidence : Q) : Comparison :=
  {| c_invoiceNo := c_invoiceNo c;
     salesInvoice := salesInvoice c;
     gstr1Invoice := gstr1Invoice c;
     discrepancies := discrepancies c;
     totalDifference := totalDifference c;
     status := status c;
     matchType := "fuzzy";
     matchConfidence := Some confidence |}.

Definition missingInGSTR1 (salesInv : Invoice) : Missing :=
  {| m_invoice := salesInv;
     m_status := "MISSING_IN_GSTR1";
     m_severity := "high";
     m_suggestion := "Add this invoice to GSTR-1 filing" |}.

Definition missingInSales (inv : Invoice) : Missing :=
  {| m_invoice := inv;
     m_status := "MISSING_IN_SALES";
     m_severity := "high";
     m_suggestion :=
       "This invoice exists in GSTR-1 but not in sales register - verify or remove from GSTR-1" |}.

(** The state the first loop of [reconcileData] works on: the result
    under construction and the set [processedGSTR1]. *)
Definition MatchState : Type := Result * gset string.

(** One iteration of [for (const [key, salesInvoices] of
    salesMap.entries())].  A bucket is never empty; the first case only
    makes the match total. *)
Definition matchSales (toleranceAmount : Z) (gstr1Map : InvoiceMap)
    (st : MatchState) (entry : string * list Invoice) : MatchState :=
  let '(result, processedGSTR1) := st in
  let '(key, salesInvoices) := entry in
  match salesInvoices with
  | [] => st
  | salesInv :: _ =>
      let result :=
        if (1 <? length salesInvoices)%nat
        then pushDuplicate
               (mkDuplicate "sales_duplicate" (invoiceNo salesInv)
                  (length salesInvoices) salesInvoices) result
        else result in
      match mapGet key gstr1Map with
      | None | Some [] =>
          match findFuzzyMatch salesInv gstr1Map processedGSTR1 with
          | Some fuzzyMatch =>
              let comparison :=
                markFuzzy
                  (compareInvoices salesInv (fm_invoice fuzzyMatch)
                     toleranceAmount)
                  (fm_confidence fuzzyMatch) in
              (classify comparison result,
               {[ normalizeInvoiceNo (invoiceNo (fm_invoice fuzzyMatch)) ]}
                 ∪ processedGSTR1)
          | None =>
              (pushMissingSales (missingInGSTR1 salesInv) result,
               processedGSTR1)
          end
      | Some ((gstr1Inv :: _) as gstr1Invoices) =>
          let processedGSTR1 := {[ key ]} ∪ processedGSTR1 in
          let result :=
            if (1 <? length gstr1Invoices)%nat
            then pushDuplicate
                   (mkDuplicate "gstr1_duplicate" (invoiceNo gstr1Inv)
                      (length gstr1Invoices) gstr1Invoices) result
            else result in
          (classify (compareInvoices salesInv gstr1Inv toleranceAmount)
                    result,
           processedGSTR1)
      end
  end.

(** One iteration of [for (const [key, gstr1Invoices] of
    gstr1Map.entries())]. *)
Definition reportUnprocessed (processedGSTR1 : gset string) (r : Result)
    (entry : string * list Invoice) : Result :=
  let '(key, gstr1Invoices) := entry in
  if decide (key ∈ processedGSTR1) then r
  else fold_left (fun r inv => pushMissingGSTR1 (missingInSales inv) r)
                 gstr1Invoices r.

(** [options]: only [toleranceAmount] is used ([tolerancePercent] is
    read into a constant that nothing mentions again). *)
Record Options := mkOptions { toleranceAmount : option Z }.

(** [options.toleranceAmount || 1]: absent and [0] both give 1 rupee. *)
Definition effectiveTolerance (options : Options) : Z :=
  match toleranceAmount options with
  | None => 100
  | Some t => if t =? 0 then 100 else t
  end.

Definition emptyResult (salesData gstr1Data : list Invoice) : Result :=
  {| summary := mkSummary (length salesData) (length gstr1Data) 0 0 0 0 0;
     matched := []; mismatched := [];
     missingSalesInGSTR1 := []; missingGSTR1InSales := [];
     duplicates := [] |}.

(** [result.summary.totalDiscrepancyAmount =
     Math.round(result.summary.totalDiscrepancyAmount * 100) / 100] *)
Definition roundSummary (r : Result) : Result :=
  let s := summary r in
  {| summary :=
       mkSummary (totalSalesInvoices s) (totalGSTR1Invoices s)
         (n_matched s) (n_mismatched s) (n_missingSalesInGSTR1 s)
         (n_missingGSTR1InSales s) (Js.round2 (totalDiscrepancyAmount s));
     matched := matched r;
     mismatched := mismatched r;
     missingSalesInGSTR1 := missingSalesInGSTR1 r;
     missingGSTR1InSales := missingGSTR1InSales r;
     duplicates := duplicates r |}.

(** The state after the first loop of [reconcileData]. *)
Definition matchAll (salesData gstr1Data : list Invoice) (tolerance : Z)
  : MatchState :=
  let salesMap := buildInvoiceMap salesData "sales" in
  let gstr1Map := buildInvoiceMap gstr1Data "gstr1" in
  fold_left (matchSales tolerance gstr1Map) salesMap
            (emptyResult salesData gstr1Data, ∅).

(** [reconcileData(salesData, gstr1Data, options)] *)
Definition reconcileData (salesData gstr1Data : list Invoice)
    (options : Options) : Result :=
  let toleranceAmount := effectiveTolerance options in
  let gstr1Map := buildInvoiceMap gstr1Data "gstr1" in
  let '(result, processedGSTR1) :=
    matchAll salesData gstr1Data toleranceAmount in
  let result :=
    fold_left (reportUnprocessed processedGSTR1) gstr1Map result in
  roundSummary result.

(** *** Vocabulary of the properties *)

(** The lookup key of an invoice. *)
Definition keyOf (inv : Invoice) : string :=
  normalizeInvoiceNo (invoiceNo inv).

(** The identifier is present and not empty. *)
Definition hasIdentifier (inv : Invoice) : Prop :=
  Js.truthyOpt (invoiceNo inv) = true.

(** The pairs of a result, matched first. *)
Definition pairs (r : Result) : list Comparison :=
  matched r ++ mismatched r.

(** Every invoice a result reports in one of its four buckets. *)
Definition reported (r : Result) : list Invoice :=
  map salesInvoice (pairs r) ++ map gstr1Invoice (pairs r)
  ++ map m_invoice (missingSalesInGSTR1 r)
  ++ map m_invoice (missingGSTR1InSales r).

(** The counters of the summary are the lengths of the lists. *)
Definition countersAgree (r : Result) : Prop :=
  n_matched (summary r) = length (matched r)
  /\ n_mismatched (summary r) = length (mismatched r)
  /\ n_missingSalesInGSTR1 (summary r) = length (missingSalesInGSTR1 r)
  /\ n_missingGSTR1InSales (summary r) = length (missingGSTR1InSales r).

(** Every bucket of an index is non-empty and holds invoices that have
    an identifier and normalize to the key of the bucket. *)
Definition wellFormed (map : InvoiceMap) : Prop :=
  forall k b, (k, b) ∈ map ->
    b <> [] /\ forall x, x ∈ b -> keyOf x = k /\ hasIdentifier x.

(** [x] is the first invoice of a bucket of [map]. *)
Definition heads (map : InvoiceMap) (x : Invoice) : Prop :=
  exists k b, (k, x :: b) ∈ map.

(** What the first loop of [reconcileData] records about a pair: the
    discrepancies are those of [compareInvoices], nothing added; a
    fuzzy pair joins two different keys and carries its score, an
    exact pair joins equal keys and carries none. *)
Definition pairRecord (tolerance : Z) (c : Comparison) : Prop :=
  discrepancies c
    = discrepancies
        (compareInvoices (salesInvoice c) (gstr1Invoice c) tolerance)
  /\ ((matchType c = "fuzzy"
       /\ (matchConfidence c = Some (9 # 10)
           \/ matchConfidence c = Some (7 # 10))
       /\ keyOf (salesInvoice c) <> keyOf (gstr1Invoice c))
      \/ (matchType c = "exact" /\ matchConfidence c = None
          /\ keyOf (salesInvoice c) = keyOf (gstr1Invoice c))).

(** The invariant of the first loop of [reconcileData], for the two
    indexes and a tolerance: the counters follow the lists, nothing
    is reported as missing from the sales register yet, every pair is
    recorded as [pairRecord] says and joins the first invoices of two
    buckets, [matched] holds the pairs without discrepancies,
    [mismatched] the others, and [processedGSTR1] is the set of the
    keys of the filed invoices that are in a pair. *)
Definition loopInvariant (tolerance : Z) (salesMap gstr1Map : InvoiceMap)
    (st : MatchState) : Prop :=
  countersAgree (fst st)
  /\ missingGSTR1InSales (fst st) = []
  /\ (forall c, c ∈ pairs (fst st) ->
        pairRecord tolerance c
        /\ heads salesMap (salesInvoice c)
        /\ heads gstr1Map (gstr1Invoice c))
  /\ (forall c, c ∈ matched (fst st) -> discrepancies c = [])
  /\ (forall c, c ∈ mismatched (fst st) -> discrepancies c <> [])
  /\ (forall m, m ∈ missingSalesInGSTR1 (fst st) ->
        heads salesMap (m_invoice m))
  /\ (forall k, k ∈ snd st <->
        exists c, c ∈ pairs (fst st) /\ keyOf (gstr1Invoice c) = k).


(** The invoices of the buckets whose key is not in [processedGSTR1],
    in the order of the second loop of [reconcileData]. *)
Definition unprocessed (processedGSTR1 : gset string) (map : InvoiceMap)
  : list Invoice :=
  flat_map (fun e => if decide (fst e ∈ processedGSTR1) then [] else snd e)
           map.

(** [r'] is [r] with [ms] appended to [missingGSTR1InSales] (and
    counted), and nothing else changed but for the list of duplicates
    and the total discrepancy amount. *)
Definition extends (r r' : Result) (ms : list Missing) : Prop :=
  matched r' = matched r
  /\ mismatched r' = mismatched r
  /\ missingSalesInGSTR1 r' = missingSalesInGSTR1 r
  /\ missingGSTR1InSales r' = missingGSTR1InSales r ++ ms
  /\ n_matched (summary r') = n_matched (summary r)
  /\ n_mismatched (summary r') = n_mismatched (summary r)
  /\ n_missingSalesInGSTR1 (summary r') = n_missingSalesInGSTR1 (summary r)
  /\ n_missingGSTR1InSales (summary r')
     = (n_missingGSTR1InSales (summary r) + length ms)%nat.

(** What identifies a pairing: the two invoices, the kind of match and
    the score. *)
Definition pairing (c : Comparison)
  : Invoice * Invoice * string * option Q :=
  (salesInvoice c, gstr1Invoice c, matchType c, matchConfidence c).

(** The run that gave [r2] matched at least as many pairs as the run
    that gave [r1], out of as many pairs. *)
Definition moreMatched (r1 r2 : Result) : Prop :=
  (n_matched (summary r1) <= n_matched (summary r2))%nat
  /\ (n_matched (summary r1) + n_mismatched (summary r1)
      = n_matched (summary r2) + n_mismatched (summary r2))%nat
  /\ (length (matched r1) <= length (matched r2))%nat
  /\ (length (matched r1) + length (mismatched r1)
      = length (matched r2) + length (mismatched r2))%nat.

(** Two states of the first loop, reached with the tolerances [t1] and
    [t2]: the same keys are processed, the same pairings were made
    and the same sales invoices are missing; if [t1 <= t2] the second
    run matched at least as many pairs. *)
Definition related (t1 t2 : Z) (st1 st2 : MatchState) : Prop :=
  snd st1 = snd st2
  /\ map pairing (pairs (fst st1)) ≡ₚ map pairing (pairs (fst st2))
  /\ missingSalesInGSTR1 (fst st1) = missingSalesInGSTR1 (fst st2)
  /\ (t1 <= t2 -> moreMatched (fst st1) (fst st2)).

End Reconciliation.

(* ===================================================================== *)
(** ** gstr2Reconciliation.js: the purchase-side twin *)
(* ===================================================================== *)

Module Gstr2Reconciliation.

(** A row of the purchase register or of GSTR-2A/2B.  A purchase row
    names its supplier in [sellerGSTIN] or [supplierGSTIN], a GSTR-2
    row in [supplierGSTIN]; absent properties are [""] and [0] as in
    [Reconciliation.Invoice]. *)
Record Row := mkRow
  { invoiceNo : option string;
    sellerGSTIN : string;
    supplierGSTIN : string;
    taxableAmount : Z;
    cgst : Z;
    sgst : Z;
    igst : Z;
    totalAmount : Z }.

(** [{ ...inv, _index: i }] *)
Record Indexed := mkIndexed { row : Row; _index : nat }.

(** [[\s\-\/\\\.]] *)
Definition isSeparator (c : ascii) : bool :=
  let n := N_of_ascii c in
  Js.isWhitespace c || ((n =? 45) || (n =? 47) || (n =? 92) || (n =? 46))%N.

(** [normalizeInvNo(invNo)] *)
Definition normalizeInvNo (invNo : option string) : string :=
  match invNo with
  | None => ""
  | Some s =>
      if negb (Js.truthy s) then ""
      else Js.toUpperCase (Js.keep (fun c => negb (isSeparator c)) s)
  end.

(** [a || b] on strings. *)
Definition orElse (a b : string) : string := if Js.truthy a then a else b.

(** [(purchase.sellerGSTIN || purchase.supplierGSTIN || '').toUpperCase()] *)
Definition purchaseGSTIN (purchase : Row) : string :=
  Js.toUpperCase (orElse (orElse (sellerGSTIN purchase)
                                 (supplierGSTIN purchase)) "").

(** [(g.supplierGSTIN || '').toUpperCase()] *)
Definition gstr2GSTIN (g : Row) : string :=
  Js.toUpperCase (orElse (supplierGSTIN g) "").

(** [`${gstin}_${key}`] *)
Definition compositeKey (gstin key : string) : string :=
  String.append gstin (String.append "_" key).

Definition purchaseKey (purchase : Row) : string :=
  compositeKey (purchaseGSTIN purchase) (normalizeInvNo (invoiceNo purchase)).

Definition gstr2Key (g : Row) : string :=
  compositeKey (gstr2GSTIN g) (normalizeInvNo (invoiceNo g)).

Inductive Discrepancy :=
| AmountDiscrepancy (field label : string)
    (purchaseValue gstr2Value difference : Z) (severity : string)
| GstinDiscrepancy (field label : string)
    (purchaseValue gstr2Value : string) (severity : string)
| Remark_ (field severity message : string).

(** The body of the loop over the five amount fields. *)
Definition compareField (tolerance : Z) (name label : string)
    (pVal gVal : Z) : list Discrepancy :=
  if tolerance <? Z.abs (pVal - gVal) then
    [ AmountDiscrepancy name label pVal gVal (pVal - gVal)
        (if 10000 <? Z.abs (pVal - gVal) then "error" else "warning") ]
  else [].

(** [comparePurchaseInvoice(purchase, gstr2, tolerance)] *)
Definition comparePurchaseInvoice (purchase gstr2 : Row) (tolerance : Z)
  : list Discrepancy :=
  let pGSTIN := purchaseGSTIN purchase in
  let gGSTIN := gstr2GSTIN gstr2 in
  compareField tolerance "taxableAmount" "Taxable Amount"
    (taxableAmount purchase) (taxableAmount gstr2)
  ++ compareField tolerance "cgst" "CGST" (cgst purchase) (cgst gstr2)
  ++ compareField tolerance "sgst" "SGST" (sgst purchase) (sgst gstr2)
  ++ compareField tolerance "igst" "IGST" (igst purchase) (igst gstr2)
  ++ compareField tolerance "totalAmount" "Total Amount"
       (totalAmount purchase) (totalAmount gstr2)
  ++ (if Js.truthy pGSTIN && Js.truthy gGSTIN
         && negb (String.eqb pGSTIN gGSTIN)
      then [ GstinDiscrepancy "gstin" "Supplier GSTIN" pGSTIN gGSTIN "error" ]
      else []).

(** The loop of [findFuzzyMatch2A] from index [i] on: the first unused
    row with the purchase's (non-empty) GSTIN and a total within one
    rupee.  No score is computed. *)
Fixpoint findFuzzyFrom (purchase : Row) (usedSet : gset nat) (i : nat)
    (rows : list Row) : option Indexed :=
  match rows with
  | [] => None
  | g :: rest =>
      if decide (i ∈ usedSet) then findFuzzyFrom purchase usedSet (S i) rest
      else if Js.truthy (purchaseGSTIN purchase)
              && String.eqb (purchaseGSTIN purchase) (gstr2GSTIN g)
              && (Z.abs (totalAmount purchase - totalAmount g) <=? 100)
      then Some (mkIndexed g i)
      else findFuzzyFrom purchase usedSet (S i) rest
  end.

(** [findFuzzyMatch2A(purchase, gstr2Data, usedSet)] *)
Definition findFuzzyMatch2A (purchase : Row) (gstr2Data : list Row)
    (usedSet : gset nat) : option Indexed :=
  findFuzzyFrom purchase usedSet 0 gstr2Data.

Record Pair := mkPair
  { purchase : Row; gstr2 : Indexed; discrepancies : list Discrepancy }.

Record Summary := mkSummary
  { totalPurchaseInvoices : nat;
    totalGSTR2Invoices : nat;
    n_matched : nat;
    n_mismatched : nat;
    n_missingInGSTR2 : nat;
    n_missingInPurchase : nat }.

(** [itcSummary], [supplierBreakdown] and [summary.source] are sums and
    labels that the matching never reads; they are left out. *)
Record Result := mkResult
  { summary : Summary;
    matched : list Pair;
    mismatched : list Pair;
    missingInGSTR2 : list Row;
    missingInPurchase : list Row }.

(** The first loop of [reconcilePurchaseWith2A2B], from index [i] on:
    every GSTR-2 row is appended to the bucket of its composite key. *)
Fixpoint buildFrom (i : nat) (rows : list Row)
    (gstr2Map : gmap string (list Indexed)) : gmap string (list Indexed) :=
  match rows with
  | [] => gstr2Map
  | inv :: rest =>
      let key := gstr2Key inv in
      buildFrom (S i) rest
        (<[ key := default [] (gstr2Map !! key) ++ [mkIndexed inv i] ]>
           gstr2Map)
  end.

(** ["Invoice number mismatch: ..."]; [String(undefined)] is
    ["undefined"]. *)
Definition showInvoiceNo (o : option string) : string :=
  match o with Some s => s | None => "undefined" end.

Definition invoiceNoRemark (purchase fuzzyMatch : Row) : Discrepancy :=
  Remark_ "invoiceNo" "warning"
    (String.append "Invoice number mismatch: "
       (String.append (String (ascii_of_N 34) EmptyString)
          (String.append (showInvoiceNo (invoiceNo purchase))
             (String.append (String (ascii_of_N 34) EmptyString)
                (String.append " vs "
                   (String.append (String (ascii_of_N 34) EmptyString)
                      (String.append (showInvoiceNo (invoiceNo fuzzyMatch))
                         (String (ascii_of_N 34) EmptyString)))))))).

Definition isEmpty {A} (l : list A) : bool :=
  match l with [] => true | _ :: _ => false end.

Definition MatchState : Type := Result * gset nat.

Definition pushMatched (p : Pair) (r : Result) : Result :=
  let s := summary r in
  {| summary :=
       mkSummary (totalPurchaseInvoices s) (totalGSTR2Invoices s)
         (S (n_matched s)) (n_mismatched s) (n_missingInGSTR2 s)
         (n_missingInPurchase s);
     matched := matched r ++ [p];
     mismatched := mismatched r;
     missingInGSTR2 := missingInGSTR2 r;
     missingInPurchase := missingInPurchase r |}.

Definition pushMismatched (p : Pair) (r : Result) : Result :=
  let s := summary r in
  {| summary :=
       mkSummary (totalPurchaseInvoices s) (totalGSTR2Invoices s)
         (n_matched s) (S (n_mismatched s)) (n_missingInGSTR2 s)
         (n_missingInPurchase s);
     matched := matched r;
     mismatched := mismatched r ++ [p];
     missingInGSTR2 := missingInGSTR2 r;
     missingInPurchase := missingInPurchase r |}.

Definition pushMissingInGSTR2 (p : Row) (r : Result) : Result :=
  let s := summary r in
  {| summary :=
       mkSummary (totalPurchaseInvoices s) (totalGSTR2Invoices s)
         (n_matched s) (n_mismatched s) (S (n_missingInGSTR2 s))
         (n_missingInPurchase s);
     matched := matched r;
     mismatched := mismatched r;
     missingInGSTR2 := missingInGSTR2 r ++ [p];
     missingInPurchase := missingInPurchase r |}.

Definition pushMissingInPurchase (g : Row) (r : Result) : Result :=
  let s := summary r in
  {| summary :=
       mkSummary (totalPurchaseInvoices s) (totalGSTR2Invoices s)
         (n_matched s) (n_mismatched s) (n_missingInGSTR2 s)
         (S (n_missingInPurchase s));
     matched := matched r;
     mismatched := mismatched r;
     missingInGSTR2 := missingInGSTR2 r;
     missingInPurchase := missingInPurchase r ++ [g] |}.

(** The first candidate of the bucket that is not used yet: the
    [for (const candidate of candidates)] loop up to its [break]. *)
Definition firstUnused (gstr2Used : gset nat) (candidates : list Indexed)
  : option Indexed :=
  List.find (fun c => negb (bool_decide (_index c ∈ gstr2Used))) candidates.

(** One iteration of [for (const purchase of purchaseData)]. *)
Definition matchPurchase (tolerance : Z) (gstr2Data : list Row)
    (gstr2Map : gmap string (list Indexed)) (st : MatchState)
    (purchase : Row) : MatchState :=
  let '(result, gstr2Used) := st in
  match firstUnused gstr2Used (default [] (gstr2Map !! purchaseKey purchase))
  with
  | Some candidate =>
      let discrepancies :=
        comparePurchaseInvoice purchase (row candidate) tolerance in
      (if isEmpty discrepancies
       then pushMatched (mkPair purchase candidate []) result
       else pushMismatched (mkPair purchase candidate discrepancies) result,
       {[ _index candidate ]} ∪ gstr2Used)
  | None =>
      match findFuzzyMatch2A purchase gstr2Data gstr2Used with
      | Some fuzzyMatch =>
          let discrepancies :=
            comparePurchaseInvoice purchase (row fuzzyMatch) tolerance in
          (pushMismatched
             (mkPair purchase fuzzyMatch
                (discrepancies
                 ++ [invoiceNoRemark purchase (row fuzzyMatch)]))
             result,
           {[ _index fuzzyMatch ]} ∪ gstr2Used)
      | None => (pushMissingInGSTR2 purchase result, gstr2Used)
      end
  end.

(** The last loop: [for (let i = 0; i < gstr2Data.length; i++)
    if (!gstr2Used.has(i)) ...], from index [i] on. *)
Fixpoint reportUnused (gstr2Used : gset nat) (i : nat) (rows : list Row)
    (r : Result) : Result :=
  match rows with
  | [] => r
  | g :: rest =>
      reportUnused gstr2Used (S i) rest
        (if decide (i ∈ gstr2Used) then r else pushMissingInPurchase g r)
  end.

Record Options := mkOptions { tolerance : option Z }.

(** [options.tolerance || 1] *)
Definition effectiveTolerance (options : Options) : Z :=
  match tolerance options with
  | None => 100
  | Some t => if t =? 0 then 100 else t
  end.

(** [reconcilePurchaseWith2A2B(purchaseData, gstr2Data, options)] *)
Definition reconcilePurchaseWith2A2B (purchaseData gstr2Data : list Row)
    (options : Options) : Result :=
  let tolerance := effectiveTolerance options in
  let result :=
    {| summary := mkSummary (length purchaseData) (length gstr2Data) 0 0 0 0;
       matched := []; mismatched := [];
       missingInGSTR2 := []; missingInPurchase := [] |} in
  let gstr2Map := buildFrom 0 gstr2Data ∅ in
  let '(result, gstr2Used) :=
    fold_left (matchPurchase tolerance gstr2Data gstr2Map) purchaseData
              (result, ∅) in
  reportUnused gstr2Used 0 gstr2Data result.

(** *** Vocabulary of the properties *)

(** Every row of a bucket has the composite key of the bucket. *)
Definition wellFormed (gstr2Map : gmap string (list Indexed)) : Prop :=
  forall k l c, gstr2Map !! k = Some l -> c ∈ l -> gstr2Key (row c) = k.

(** A pair made by the exact lookup: equal composite keys, and the
    discrepancies of [comparePurchaseInvoice], nothing added. *)
Definition exactRecord (tolerance : Z) (p : Pair) : Prop :=
  purchaseKey (purchase p) = gstr2Key (row (gstr2 p))
  /\ discrepancies p
     = comparePurchaseInvoice (purchase p) (row (gstr2 p)) tolerance.

(** A pair made by the fuzzy fallback: the discrepancies of
    [comparePurchaseInvoice] followed by the invoice-number remark. *)
Definition fuzzyRecord (tolerance : Z) (p : Pair) : Prop :=
  discrepancies p
  = comparePurchaseInvoice (purchase p) (row (gstr2 p)) tolerance
    ++ [invoiceNoRemark (purchase p) (row (gstr2 p))].

(** [matched] holds exact pairs without discrepancies only;
    [mismatched] holds the exact pairs with discrepancies and every
    fuzzy pair. *)
Definition asRecorded (tolerance : Z) (r : Result) : Prop :=
  (forall p, p ∈ matched r ->
     exactRecord tolerance p /\ discrepancies p = [])
  /\ (forall p, p ∈ mismatched r ->
        (exactRecord tolerance p /\ discrepancies p <> [])
        \/ fuzzyRecord tolerance p).

(** What makes a row [c] acceptable to the fuzzy fallback for a
    purchase: it is a row of the data at its own index, not used yet, of
    the purchase's (non-empty) supplier, with a total at most one rupee
    away. *)
Definition accepted (purchase : Row) (gstr2Data : list Row)
    (usedSet : gset nat) (c : Indexed) : Prop :=
  (_index c ∉ usedSet)
  /\ gstr2Data !! _index c = Some (row c)
  /\ purchaseGSTIN purchase <> ""
  /\ purchaseGSTIN purchase = gstr2GSTIN (row c)
  /\ Z.abs (totalAmount purchase - totalAmount (row c)) <= 100.

End Gstr2Reconciliation.

(* ===================================================================== *)
(** ** Concrete inputs *)
(* ===================================================================== *)

Module Examples.

(** Liability [{CGST: 100, SGST: 100, IGST: 0}] and credit
    [{CGST: 60, SGST: 0, IGST: 50}], in rupees. *)
Definition table3_1 : Gstr3b.Table3_1 :=
  {| Gstr3b.totalLiability_3_1 := Gstr3b.mkHeads 0 10000 10000 0 |}.
Definition table4 : Gstr3b.Table4 :=
  {| Gstr3b.netITC := Gstr3b.mkHeads 5000 6000 0 0 |}.
Definition noBalance : Gstr3b.Heads := Gstr3b.mkHeads 0 0 0 0.

Import Reconciliation.

(** An invoice with an identifier, a counterparty and a total (paise). *)
Definition invoice (no gstin : string) (total : Z) : Invoice :=
  mkInvoice (Some no) "" gstin "" 0 0 0 0 total None.

Definition defaults : Options := mkOptions None.

(** ["INV-001"] against ["inv001"], same counterparty, 1000 rupees. *)
Definition hyphenLeft : list Invoice := [invoice "INV-001" "GSTIN1" 100000].
Definition hyphenRight : list Invoice := [invoice "inv001" "GSTIN1" 100000].

(** ["INV-2"] against ["INV-9"], same counterparty, 5000 rupees. *)
Definition amountLeft : list Invoice := [invoice "INV-2" "G1" 500000].
Definition amountRight : list Invoice := [invoice "INV-9" "G1" 500000].

(** The pair the two make, as the fuzzy fallback records it. *)
Definition amountPair : Comparison :=
  markFuzzy
    (compareInvoices (withSource (invoice "INV-2" "G1" 500000) "sales")
       (withSource (invoice "INV-9" "G1" 500000) "gstr1") 100)
    (7 # 10).

(** Two sales invoices whose numbers both carry the digit [1], one
    filed invoice ["Y1"]. *)
Definition twiceLeft : list Invoice :=
  [invoice "X-1" "G" 10000; invoice "Y1" "G" 10000].
Definition twiceRight : list Invoice := [invoice "Y1" "G" 10000].


(** Rows without an identifier. *)
Definition absentNo : Invoice := mkInvoice None "" "G1" "" 0 0 0 0 10000 None.
Definition emptyNo : Invoice := invoice "" "G1" 20000.

(** The same number on both sides, totals 80 paise apart. *)
Definition nearLeft : list Invoice := [invoice "N1" "G1" 10080].
Definition nearRight : list Invoice := [invoice "N1" "G1" 10000].
Definition zeroTolerance : Options := mkOptions (Some 0).
Definition halfRupee : Options := mkOptions (Some 50).

(** A purchase booked as ["P-1"] that the supplier filed as ["Q-7"],
    same GSTIN and total. *)
Definition booked : Gstr2Reconciliation.Row :=
  Gstr2Reconciliation.mkRow (Some "P-1") "" "S1" 0 0 0 0 50000.
Definition filed : Gstr2Reconciliation.Row :=
  Gstr2Reconciliation.mkRow (Some "Q-7") "" "S1" 0 0 0 0 50000.

End Examples.

(* ===================================================================== *)
(** ** Further vocabulary: strings and the sales-side result *)
(* ===================================================================== *)

Module Text.

(** Every character of [s] satisfies [p]. *)
Fixpoint every (p : ascii -> bool) (s : string) : bool :=
  match s with
  | EmptyString => true
  | String c r => p c && every p r
  end.

(** An ASCII lower-case letter. *)
Definition isLower (c : ascii) : bool :=
  let n := N_of_ascii c in ((97 <=? n) && (n <=? 122))%N.

(** The first character of [s], if any, satisfies [p]. *)
Definition startsWith (p : ascii -> bool) (s : string) : bool :=
  match s with
  | EmptyString => false
  | String c _ => p c
  end.

(** A character a normalized invoice number may contain: neither
    whitespace nor a lower-case letter. *)
Definition isKeyChar (c : ascii) : bool :=
  negb (Js.isWhitespace c) && negb (isLower c).

End Text.

Module ReconciliationMore.
Import Reconciliation.

(** [extractMonth(dateStr)]: [yyyy-mm] for the two numeric date
    patterns of [normalizeDate], [null] ([None]) otherwise. *)
Definition extractMonth (dateStr : string) : option string :=
  if negb (Js.truthy dateStr) then None
  else
    let str := Js.trim dateStr in
    let month (y m : string) : string :=
      String.append y (String.append "-" (Js.padStart2 m)) in
    match dateGroups str with
    | Some (g1, g2, g3) =>
        if oneOrTwo g1 && oneOrTwo g2 && four g3 then Some (month g3 g2)
        else if four g1 && oneOrTwo g2 && oneOrTwo g3 then Some (month g1 g2)
        else None
    | None => None
    end.

(** The invoices of [invoices] that have an identifier normalizing to
    [key], in their order, tagged with [source]. *)
Definition bucketOf (key : string) (invoices : list Invoice)
    (source : string) : list Invoice :=
  map (fun inv => withSource inv source)
      (List.filter
         (fun inv => Js.truthyOpt (invoiceNo inv) && String.eqb (keyOf inv) key)
         invoices).

(** The keys of the sales invoices a result accounts for, pairs first. *)
Definition outcomeKeys (r : Result) : list string :=
  map (fun c => keyOf (salesInvoice c)) (pairs r)
  ++ map (fun m => keyOf (m_invoice m)) (missingSalesInGSTR1 r).

(** The sales invoices a result accounts for, pairs first. *)
Definition outcomeInvoices (r : Result) : list Invoice :=
  map salesInvoice (pairs r) ++ map m_invoice (missingSalesInGSTR1 r).

(** [r0] carries the same summary and the same four lists as [r]; only
    the list of duplicates may differ. *)
Definition sameOutcomes (r r0 : Result) : Prop :=
  summary r0 = summary r
  /\ matched r0 = matched r
  /\ mismatched r0 = mismatched r
  /\ missingSalesInGSTR1 r0 = missingSalesInGSTR1 r
  /\ missingGSTR1InSales r0 = missingGSTR1InSales r.

(** The sum of the absolute total differences of a list of pairs. *)
Definition discrepancyTotal (cs : list Comparison) : Z :=
  fold_right (fun c acc => Z.abs (totalDifference c) + acc) 0 cs.

(** The first invoices of the buckets of an index, in its order. *)
Definition firsts (map : InvoiceMap) : list Invoice :=
  flat_map (fun e => match snd e with [] => [] | x :: _ => [x] end) map.

(** The candidates [findFuzzyMatch] scores, in its order: the first
    invoice of every bucket whose key is not processed, with that key. *)
Definition candidatesOf (map : InvoiceMap) (processedSet : gset string)
  : list (string * Invoice) :=
  flat_map
    (fun e => if decide (fst e ∈ processedSet) then []
              else match snd e with [] => [] | g :: _ => [(fst e, g)] end)
    map.

(** The score [findFuzzyMatch] gives to a candidate, for a sales
    invoice. *)
Definition score (salesInv : Invoice) (candidate : string * Invoice) : Q :=
  candidateConfidence salesInv (keyOf salesInv) (fst candidate)
    (snd candidate).

(** The two invoices agree on every compared field within [tolerance]:
    the five amounts, the GSTINs unless one is blank, the dates unless
    one is absent. *)
Definition agree (tolerance : Z) (s g : Invoice) : Prop :=
  Z.abs (taxableAmount s - taxableAmount g) <= tolerance
  /\ Z.abs (cgst s - cgst g) <= tolerance
  /\ Z.abs (sgst s - sgst g) <= tolerance
  /\ Z.abs (igst s - igst g) <= tolerance
  /\ Z.abs (totalAmount s - totalAmount g) <= tolerance
  /\ (Js.trim (Js.toUpperCase (customerGSTIN s)) = ""
      \/ Js.trim (Js.toUpperCase (customerGSTIN g)) = ""
      \/ Js.trim (Js.toUpperCase (customerGSTIN s))
         = Js.trim (Js.toUpperCase (customerGSTIN g)))
  /\ (normalizeDate (date s) = "" \/ normalizeDate (date g) = ""
      \/ normalizeDate (date s) = normalizeDate (date g)).

(** The loop body on one candidate. *)
Definition candidateStep (s : Invoice) (best : option FuzzyMatch * Q)
    (c : string * Invoice) : option FuzzyMatch * Q :=
  if negb (Qle_bool (score s c) (snd best)) && Qle_bool (7 # 10) (score s c)
  then (Some (mkFuzzyMatch (snd c) (score s c)), score s c)
  else best.

(** What the loop has established after the candidates [l]. *)
Definition chosen (s : Invoice) (l : list (string * Invoice))
    (best : option FuzzyMatch * Q) : Prop :=
  match fst best with
  | None =>
      snd best = 0%Q /\ forall c, c ∈ l -> (score s c < 7 # 10)%Q
  | Some fm =>
      snd best = fm_confidence fm
      /\ (7 # 10 <= fm_confidence fm)%Q
      /\ exists pre k post,
           l = pre ++ (k, fm_invoice fm) :: post
           /\ fm_confidence fm = score s (k, fm_invoice fm)
           /\ (forall c, c ∈ pre -> (score s c < fm_confidence fm)%Q)
           /\ (forall c, c ∈ post -> (score s c <= fm_confidence fm)%Q)
  end.

End ReconciliationMore.

Module MoreExamples.
Import Reconciliation.

(** A filed invoice nobody sold, next to the pair of scenario 2. *)
Definition stray : Invoice := Examples.invoice "Z-500" "G9" 7700.

(** A tolerance below zero. *)
Definition negativeTolerance : Options := mkOptions (Some (-100)).

(** A register with a repeated number and a row without number. *)
Definition register : list Invoice :=
  [Examples.invoice "R-1" "G1" 10000; Examples.invoice "r-1" "G1" 99900;
   Examples.absentNo; Examples.invoice "R-2" "" 5000].

End MoreExamples.

(* ===================================================================== *)
(** ** Vocabulary for the purchase-side accounts *)
(* ===================================================================== *)

Module Gstr2More.
Import Gstr2Reconciliation.

(** The pairs of a result, matched first. *)
Definition pairs (r : Result) : list Pair := matched r ++ mismatched r.

(** The index in the GSTR-2 data of the row a pair consumed. *)
Definition usedIndex (p : Pair) : nat := _index (gstr2 p).

(** The GSTR-2 row of a pair, without its index. *)
Definition gstr2Row (p : Pair) : Row := row (gstr2 p).

(** The rows, from index [i] on, whose index is not in [used]. *)
Fixpoint unusedFrom (used : gset nat) (i : nat) (rows : list Row)
  : list Row :=
  match rows with
  | [] => []
  | g :: rest =>
      if decide (i ∈ used) then unusedFrom used (S i) rest
      else g :: unusedFrom used (S i) rest
  end.

(** Every row of a bucket is the row of the data at its index. *)
Definition located (data : list Row) (m : gmap string (list Indexed))
  : Prop :=
  forall k l c, m !! k = Some l -> c ∈ l -> data !! _index c = Some (row c).

(** Each counter of the summary is the length of its list. *)
Definition countersAgree (r : Result) : Prop :=
  n_matched (summary r) = length (matched r)
  /\ n_mismatched (summary r) = length (mismatched r)
  /\ n_missingInGSTR2 (summary r) = length (missingInGSTR2 r)
  /\ n_missingInPurchase (summary r) = length (missingInPurchase r).

(** The state of the purchase loop after the purchases [processed]:
    they are all reported, once; the set of used indices is that of the
    pairs, each consumed once and holding the row of the data at its
    index; and the pairs together with the unused rows are the data. *)
Definition accounted (purchaseData gstr2Data processed : list Row)
    (st : MatchState)
  : Prop :=
  (purchase <$> pairs (fst st)) ++ missingInGSTR2 (fst st) ≡ₚ processed
  /\ NoDup (usedIndex <$> pairs (fst st))
  /\ (forall i, i ∈ snd st <-> i ∈ usedIndex <$> pairs (fst st))
  /\ (forall p, p ∈ pairs (fst st) ->
        gstr2Data !! usedIndex p = Some (gstr2Row p))
  /\ (gstr2Row <$> pairs (fst st)) ++ unusedFrom (snd st) 0 gstr2Data
       ≡ₚ gstr2Data
  /\ countersAgree (fst st)
  /\ missingInPurchase (fst st) = []
  /\ totalPurchaseInvoices (summary (fst st)) = length purchaseData
  /\ totalGSTR2Invoices (summary (fst st)) = length gstr2Data.

End Gstr2More.

(* ===================================================================== *)
(** ** gstr3b.js: Tables 3.1, 4 and 5 and the whole return *)
(* ===================================================================== *)

Module Gstr3bTables.

(** A row of the outward or inward data, with the properties the tables
    read.  Amounts are in paise ([parseFloat(x) || 0] of an absent
    amount is [0]); the three rates are only added up and tested
    against zero; text properties read through [x || ''] are [""] when
    absent. *)
Record Supply := mkSupply
  { taxableAmount : Z;
    cgst : Z;
    sgst : Z;
    igst : Z;
    cess : Z;
    reverseCharge : string;
    cgstRate : Z;
    sgstRate : Z;
    igstRate : Z;
    exportType : string;
    invoiceType : string;
    itcAvailability : string;
    source : string }.



















(** A line of Table 5. *)
Record Exempt := mkExempt { exempt : Z; nilRated : Z; e_nonGST : Z }.

Record ExemptInward := mkExemptInward
  { interState : Exempt; intraState : Exempt }.

Definition addExempt (ex : ExemptInward) (inv : Supply) : ExemptInward :=
  let totalTax := cgst inv + sgst inv + igst inv in
  let isInterState := 0 <? igst inv in
  if (totalTax =? 0) && (0 <? taxableAmount inv) then
    if isInterState
    then mkExemptInward
           (mkExempt (exempt (interState ex))
                     (nilRated (interState ex) + taxableAmount inv)
                     (e_nonGST (interState ex)))
           (intraState ex)
    else mkExemptInward
           (interState ex)
           (mkExempt (exempt (intraState ex))
                     (nilRated (intraState ex) + taxableAmount inv)
                     (e_nonGST (intraState ex)))
  else ex.

(** [computeExemptInward(inwardData)] *)
Definition computeExemptInward (inwardData : list Supply) : ExemptInward :=
  fold_left addExempt inwardData
    (mkExemptInward (mkExempt 0 0 0) (mkExempt 0 0 0)).

(** The argument of [computeGSTR3B], with the defaults of its
    destructuring filled in. *)
Record Data := mkData
  { salesData : list Supply;
    purchaseData : list Supply;
    gstr1Data : list Supply;
    gstr2bData : list Supply;
    previousBalance : Gstr3b.Heads;
    period : string }.







(** *** Vocabulary of the properties *)

(** The sum of an amount over the rows. *)
Definition total (f : Supply -> Z) (rows : list Supply) : Z :=
  fold_right (fun inv acc => f inv + acc) 0 rows.


(** No GST amount of the row is negative. *)
Definition nonnegTax (inv : Supply) : Prop :=
  0 <= cgst inv /\ 0 <= sgst inv /\ 0 <= igst inv.




(** The rows Table 5 counts: no tax, and a positive taxable amount. *)
Definition untaxed (rows : list Supply) : list Supply :=
  List.filter
    (fun inv => (cgst inv + sgst inv + igst inv =? 0)
                && (0 <? taxableAmount inv))
    rows.

End Gstr3bTables.

(* ===================================================================== *)
(** ** Concrete rows for the tables *)
(* ===================================================================== *)

Module TableExamples.
Import Gstr3bTables.

(** A row with its amounts, its reverse-charge flag and its
    [itcAvailability]; the rates, like the amounts, are integers. *)
Definition supply (taxable c s i x rate : Z) (rc avail : string) : Supply :=
  mkSupply taxable c s i x rc rate rate 0 "" "" avail "".

(** A taxed sale, a nil-rated sale with cess and a reverse-charge row. *)
Definition outward : list Supply :=
  [supply 100000 9000 9000 0 0 9 "" "";
   supply 50000 0 0 0 700 0 "" "";
   supply 20000 0 0 3600 0 0 "y" ""].

(** A taxed purchase, one whose credit is unavailable and an untaxed
    purchase. *)
Definition inward : list Supply :=
  [supply 80000 7200 7200 0 0 9 "" "";
   supply 10000 900 900 0 0 9 "" "N";
   supply 30000 0 0 0 0 0 "" ""].

(** Sales that GSTR-1 overrides, and purchases 2B does not. *)
Definition data : Data :=
  mkData [supply 100 5 5 0 0 5 "" ""] inward outward [] (Gstr3b.mkHeads 0 0 0 0)
         "012024".

End TableExamples.

(* ===================================================================== *)
(** ** validation: the check character of a GSTIN *)
(* ===================================================================== *)

Module Validation.

(** A JS string as the list of its characters: [gstin[i]] is
    [gstin !! i], and [undefined] out of range. *)
Definition chars : list ascii :=
  String.list_ascii_of_string "0123456789ABCDEFGHIJKLMNOPQRSTUVWXYZ".

(** [l.indexOf(c)], counting from [i]; [None] for [-1]. *)
Fixpoint indexFrom (c : ascii) (l : list ascii) (i : nat) : option nat :=
  match l with
  | [] => None
  | x :: rest => if Ascii.eqb x c then Some i else indexFrom c rest (S i)
  end.

(** [chars.indexOf(c)] *)
Definition indexOf (c : ascii) : option nat := indexFrom c chars 0.

(** What one character adds to the sum: [quotient + remainder] of the
    index, doubled at the odd positions. *)
Definition contribution (i idx : nat) : Z :=
  let product := if Nat.even i then Z.of_nat idx else Z.of_nat idx * 2 in
  product / 36 + product mod 36.

(** The loop [for (let i = ...; i < ...; i++)] with [n] iterations left;
    [None] when it returns [false] early ([chars.indexOf(undefined)] is
    [-1] too). *)
Fixpoint sumFrom (n i : nat) (gstin : list ascii) (sum : Z) : option Z :=
  match n with
  | O => Some sum
  | S n' =>
      match gstin !! i with
      | None => None
      | Some c =>
          match indexOf c with
          | None => None
          | Some idx => sumFrom n' (S i) gstin (sum + contribution i idx)
          end
      end
  end.

(** [validateGSTINChecksum(gstin)] *)
Definition validateGSTINChecksum (gstin : list ascii) : bool :=
  match sumFrom 14 0 gstin 0 with
  | None => false
  | Some sum =>
      let checkCodePoint := (36 - sum mod 36) mod 36 in
      match gstin !! 14%nat, chars !! Z.to_nat checkCodePoint with
      | Some c, Some expectedChar => Ascii.eqb c expectedChar
      | _, _ => false
      end
  end.

(** A GSTIN with a valid check character. *)
Definition sampleGSTIN : list ascii :=
  String.list_ascii_of_string "27AAPFU0939F1ZV".

End Validation.

(* ===================================================================== *)
(** ** Vocabulary for the dates *)
(* ===================================================================== *)

Module Dates.
Import Reconciliation Text.

(** Three groups joined by two separators: [g1 a g2 b g3]. *)
Definition dateOf (g1 : string) (a : ascii) (g2 : string) (b : ascii)
    (g3 : string) : string :=
  String.append g1 (String a (String.append g2 (String b g3))).

(** [d], [m] and [y] are a day and a month of one or two digits and a
    year of four. *)
Definition dayMonthYear (d m y : string) : Prop :=
  every Js.isDigit d = true /\ every Js.isDigit m = true
  /\ every Js.isDigit y = true
  /\ oneOrTwo d = true /\ oneOrTwo m = true /\ four y = true.

(** [yyyy-mm-dd], as [normalizeDate] writes it. *)
Definition iso (d m y : string) : string :=
  dateOf y "-" (Js.padStart2 m) "-" (Js.padStart2 d).

End Dates.

(* ===================================================================== *)
(** * Properties *)
(* ===================================================================== *)

Lemma round2_paise (p : Z) : Js.round2 p = p.
Proof.
  unfold Js.round2. symmetry.
  apply Z.div_unique with (r := 1); lia.
Qed.

Lemma truthy_true (s : string) : Js.truthy s = true <-> s <> "".
Proof. destruct s; cbn; split; congruence. Qed.

Module WaterfallFacts.
Import Gstr3b.







(** The worked example of the specification: IGST credit 50 goes to
    CGST liability, CGST credit 60 covers the remaining 50, nothing
    reaches SGST liability; cash payable is 100 rupees of SGST. *)
Example waterfall_example :
  let r := computeTaxPayment Examples.table3_1 Examples.table4
             Examples.noBalance in
  cashPayable r = mkHeadsTotal 0 0 10000 0 10000
  /\ itcBalance r = mkHeadsTotal 0 1000 0 0 1000
  /\ utilization r = mkUtilization 0 5000 0 5000 0 0 0 0.
Proof. vm_compute. repeat split. Qed.

End WaterfallFacts.

(* ===================================================================== *)
(** ** The matching engine on concrete inputs *)
(* ===================================================================== *)

Module MatcherRuns.
Import Reconciliation Examples.

(** C5 -- scenario 1 of the specification, as the code runs it.  The
    comment of [normalizeInvoiceNo] promises that special characters
    are removed, and [normalizeInvNo] of the purchase side removes the
    hyphen, but [normalizeInvoiceNo] keeps it: the two keys differ, the
    exact lookup fails and the pair is only found by the fuzzy fallback,
    at confidence 0.9. *)
Theorem scenario1_is_fuzzy :
  normalizeInvoiceNo (Some "INV-001") = "INV-001"
  /\ normalizeInvoiceNo (Some "inv001") = "INV001"
  /\ Gstr2Reconciliation.normalizeInvNo (Some "INV-001") = "INV001"
  /\ mapGet (normalizeInvoiceNo (Some "INV-001"))
       (buildInvoiceMap hyphenRight "gstr1") = None
  /\ let r := reconcileData hyphenLeft hyphenRight defaults in
     map matchType (matched r) = ["fuzzy"]
     /\ map matchConfidence (matched r) = [Some (9 # 10)]
     /\ map discrepancies (matched r) = [[]]
     /\ mismatched r = []
     /\ missingSalesInGSTR1 r = [] /\ missingGSTR1InSales r = [].
Proof. vm_compute. repeat split. Qed.

(** C2 -- a filed invoice paired twice.  ["X-1"] has no exact
    counterpart and is paired with ["Y1"] by the fuzzy fallback, which
    adds ["Y1"] to [processedGSTR1]; the exact branch never looks at
    that set, so the sales invoice ["Y1"] is paired with the same filed
    invoice again. *)
Theorem right_invoice_paired_twice :
  let r := reconcileData twiceLeft twiceRight defaults in
  map matchType (matched r) = ["fuzzy"; "exact"]
  /\ map (fun c => invoiceNo (salesInvoice c)) (matched r)
     = [Some "X-1"; Some "Y1"]
  /\ map gstr1Invoice (matched r)
     = [withSource (invoice "Y1" "G" 10000) "gstr1";
        withSource (invoice "Y1" "G" 10000) "gstr1"]
  /\ ~ NoDup (map gstr1Invoice (matched r ++ mismatched r))
  /\ (length twiceLeft + length twiceRight
      < 2 * length (matched r) + 2 * length (mismatched r)
        + length (missingSalesInGSTR1 r)
        + length (missingGSTR1InSales r))%nat.
Proof.
  cbv zeta. split; [|split; [|split; [|split]]];
    try (vm_compute; reflexivity).
  vm_compute. intros H. apply NoDup_cons in H. destruct H as [H _].
  apply H. left.
Qed.

End MatcherRuns.

(* ===================================================================== *)
(** ** The invoice index *)
(* ===================================================================== *)

Section Folds.
Context {A B : Type}.

(** A property kept by every step of a loop holds after the loop. *)
Lemma fold_left_invariant (I : A -> Prop) (f : A -> B -> A) (l : list B)
    (a : A) :
  I a -> (forall a x, x ∈ l -> I a -> I (f a x)) -> I (fold_left f l a).
Proof.
  revert a. induction l as [|x l IH]; intros a Ha Hstep; cbn; [done|].
  apply IH.
  - apply Hstep; [left | done].
  - intros a' y Hy. apply Hstep. by right.
Qed.

(** The same for a relation between two runs over one list. *)
Lemma fold_left_related (R : A -> A -> Prop) (f g : A -> B -> A)
    (l : list B) (a b : A) :
  R a b -> (forall a b x, x ∈ l -> R a b -> R (f a x) (g b x)) ->
  R (fold_left f l a) (fold_left g l b).
Proof.
  revert a b. induction l as [|x l IH]; intros a b Hab Hstep; cbn; [done|].
  apply IH.
  - apply Hstep; [left | done].
  - intros a' b' y Hy. apply Hstep. by right.
Qed.
End Folds.

Module IndexFacts.
Import Reconciliation.

Lemma keyOf_withSource inv src : keyOf (withSource inv src) = keyOf inv.
Proof. reflexivity. Qed.

Lemma mapGet_Some k m b : mapGet k m = Some b -> (k, b) ∈ m.
Proof.
  induction m as [|[k' b'] m IH]; cbn; [done|].
  destruct (String.eqb_spec k' k) as [->|Hne].
  - intros [= ->]. left.
  - intros H. right. by apply IH.
Qed.

Lemma mapGet_None k m : mapGet k m = None -> k ∉ map fst m.
Proof.
  induction m as [|[k' b'] m IH]; cbn.
  - intros _. apply not_elem_of_nil.
  - destruct (String.eqb_spec k' k) as [->|Hne]; [done|].
    intros H. apply not_elem_of_cons. split; [congruence | by apply IH].
Qed.


(** Where the entries of a map come from after a push. *)
Lemma elem_of_mapPush k x m k' b' :
  (k', b') ∈ mapPush k x m ->
  (k', b') ∈ m \/ (k' = k /\ exists b, b' = b ++ [x] /\ forall y, y ∈ b ->
                                exists b0, (k, b0) ∈ m /\ y ∈ b0).
Proof.
  induction m as [|[k0 b0] m IH]; cbn.
  - intros H. apply list_elem_of_singleton in H as [= -> ->].
    right. split; [done|]. exists []. split; [done|].
    intros y Hy. by apply elem_of_nil in Hy.
  - destruct (String.eqb_spec k0 k) as [->|Hne]; intros H.
    + apply elem_of_cons in H as [[= -> ->]|H].
      * right. split; [done|]. exists b0. split; [done|].
        intros y Hy. exists b0. split; [left | done].
      * left. by right.
    + apply elem_of_cons in H as [[= -> ->]|H]; [left; left|].
      destruct (IH H) as [H'|(-> & b & -> & Hb)].
      * left. by right.
      * right. split; [done|]. exists b. split; [done|].
        intros y Hy. destruct (Hb y Hy) as (b1 & Hb1 & Hy1).
        exists b1. split; [by right | done].
Qed.

Lemma mapPush_wellFormed k x m :
  wellFormed m -> keyOf x = k -> hasIdentifier x ->
  wellFormed (mapPush k x m).
Proof.
  intros Hm Hk Hx k' b' H.
  apply elem_of_mapPush in H as [H|(-> & b & -> & Hb)]; [by apply Hm|].
  split; [by destruct b|].
  intros y Hy. apply elem_of_app in Hy as [Hy|Hy].
  - destruct (Hb y Hy) as (b0 & Hb0 & Hy0).
    by apply (Hm k b0 Hb0).
  - apply list_elem_of_singleton in Hy as ->. done.
Qed.

(** Every bucket [buildInvoiceMap] makes is non-empty, and its
    invoices have an identifier that normalizes to the key. *)
Lemma buildInvoiceMap_wellFormed invoices source :
  wellFormed (buildInvoiceMap invoices source).
Proof.
  unfold buildInvoiceMap. apply fold_left_invariant.
  - intros k b H. by apply elem_of_nil in H.
  - intros m inv _ Hm.
    destruct (Js.truthyOpt (invoiceNo inv)) eqn:Hid; cbn; [|done].
    by apply mapPush_wellFormed.
Qed.


End IndexFacts.

(* ===================================================================== *)
(** ** The first loop of [reconcileData] *)
(* ===================================================================== *)

Module LoopFacts.
Import Reconciliation IndexFacts.

Lemma candidateConfidence_cases s sn k g :
  candidateConfidence s sn k g = 9 # 10
  \/ candidateConfidence s sn k g = 7 # 10
  \/ candidateConfidence s sn k g = 0%Q.
Proof.
  unfold candidateConfidence.
  repeat match goal with |- context [if ?b then _ else _] => destruct b end;
    auto.
Qed.

(** A fuzzy match is the first invoice of a bucket whose key is not
    processed yet, and its score is 0.9 or 0.7. *)
Lemma findFuzzyMatch_Some s m P fm :
  findFuzzyMatch s m P = Some fm ->
  (exists k b, (k, fm_invoice fm :: b) ∈ m /\ k ∉ P)
  /\ (fm_confidence fm = 9 # 10 \/ fm_confidence fm = 7 # 10).
Proof.
  unfold findFuzzyMatch.
  set (I := fun best : option FuzzyMatch * Q =>
              forall fm, fst best = Some fm ->
                (exists k b, (k, fm_invoice fm :: b) ∈ m /\ k ∉ P)
                /\ (fm_confidence fm = 9 # 10 \/ fm_confidence fm = 7 # 10)).
  intros H. revert fm H. change (I (fold_left
    (fuzzyStep s (normalizeInvoiceNo (invoiceNo s)) P) m (None, 0%Q))).
  apply fold_left_invariant.
  - intros fm [=].
  - intros best [k b] Hin Hbest. unfold fuzzyStep.
    destruct (decide (k ∈ P)) as [|Hk]; [done|].
    destruct b as [|g b]; [done|].
    destruct (negb _ && _) eqn:Hc; [|done].
    intros fm [= <-]. cbn. split; [by exists k, b|].
    apply andb_true_iff in Hc as [_ Hc].
    destruct (candidateConfidence_cases s (normalizeInvoiceNo (invoiceNo s))
                k g) as [->|[->| E]]; auto.
    rewrite E in Hc. discriminate.
Qed.

Lemma compareInvoices_sales s g t : salesInvoice (compareInvoices s g t) = s.
Proof. reflexivity. Qed.

Lemma compareInvoices_gstr1 s g t : gstr1Invoice (compareInvoices s g t) = g.
Proof. reflexivity. Qed.

Lemma elem_of_snoc {A} (l : list A) (x y : A) :
  y ∈ l ++ [x] <-> y ∈ l \/ y = x.
Proof. rewrite elem_of_app, list_elem_of_singleton. done. Qed.

Lemma elem_of_pairs_pushMatched c c' r :
  c' ∈ pairs (pushMatched c r) <-> c' ∈ pairs r \/ c' = c.
Proof.
  unfold pairs. cbn. rewrite !elem_of_app, list_elem_of_singleton. tauto.
Qed.

Lemma elem_of_pairs_pushMismatched c c' r :
  c' ∈ pairs (pushMismatched c r) <-> c' ∈ pairs r \/ c' = c.
Proof.
  unfold pairs. cbn. rewrite !elem_of_app, list_elem_of_singleton. tauto.
Qed.

Lemma isEmpty_true {A} (l : list A) : isEmpty l = true <-> l = [].
Proof. by destruct l. Qed.

Lemma isEmpty_false {A} (l : list A) : isEmpty l = false <-> l <> [].
Proof. by destruct l. Qed.

(** Recording a pair keeps the invariant. *)
Lemma loopInvariant_classify t sm gm r P c :
  loopInvariant t sm gm (r, P) ->
  pairRecord t c -> heads sm (salesInvoice c) -> heads gm (gstr1Invoice c) ->
  loopInvariant t sm gm
    (classify c r, {[ keyOf (gstr1Invoice c) ]} ∪ P).
Proof.
  intros (Hn & Hmiss & Hp & Hm & Hmm & Hms & HP) Hc Hs Hg.
  unfold loopInvariant, countersAgree, classify in *. cbn [fst snd] in *.
  destruct (isEmpty (discrepancies c)) eqn:He.
  - apply isEmpty_true in He.
    split; [cbn; rewrite length_app; cbn; lia|].
    split; [done|].
    split; [intros c' Hc'; apply elem_of_pairs_pushMatched in Hc'
              as [Hc'| ->]; [by apply Hp | done]|].
    split; [cbn; intros c' Hc'; apply elem_of_snoc in Hc' as [Hc'| ->];
            [by apply Hm | done]|].
    split; [done|]. split; [done|].
    intros k. rewrite elem_of_union, elem_of_singleton, HP. split.
    + intros [->|(c' & Hc' & <-)].
      * exists c. split; [apply elem_of_pairs_pushMatched; by right | done].
      * exists c'. split; [apply elem_of_pairs_pushMatched; by left | done].
    + intros (c' & Hc' & <-).
      apply elem_of_pairs_pushMatched in Hc' as [Hc'| ->];
        [right; by exists c' | by left].
  - apply isEmpty_false in He.
    split; [cbn; rewrite length_app; cbn; lia|].
    split; [done|].
    split; [intros c' Hc'; apply elem_of_pairs_pushMismatched in Hc'
              as [Hc'| ->]; [by apply Hp | done]|].
    split; [done|].
    split; [cbn; intros c' Hc'; apply elem_of_snoc in Hc' as [Hc'| ->];
            [by apply Hmm | done]|].
    split; [done|].
    intros k. rewrite elem_of_union, elem_of_singleton, HP. split.
    + intros [->|(c' & Hc' & <-)].
      * exists c. split; [apply elem_of_pairs_pushMismatched; by right | done].
      * exists c'. split; [apply elem_of_pairs_pushMismatched; by left | done].
    + intros (c' & Hc' & <-).
      apply elem_of_pairs_pushMismatched in Hc' as [Hc'| ->];
        [right; by exists c' | by left].
Qed.

(** Reporting a sales invoice as missing keeps the invariant. *)
Lemma loopInvariant_missing t sm gm r P s :
  loopInvariant t sm gm (r, P) -> heads sm s ->
  loopInvariant t sm gm (pushMissingSales (missingInGSTR1 s) r, P).
Proof.
  intros (Hn & Hmiss & Hp & Hm & Hmm & Hms & HP) Hs.
  unfold loopInvariant, countersAgree in *. cbn [fst snd] in *.
  split; [cbn; rewrite length_app; cbn; lia|].
  repeat (split; [done|]).
  split; [|done].
  cbn. intros m Hin. apply elem_of_snoc in Hin as [Hin| ->];
    [by apply Hms | done].
Qed.

(** One iteration of the loop keeps the invariant. *)
Lemma matchSales_invariant t sm gm st k s b :
  wellFormed gm -> (k, s :: b) ∈ sm -> keyOf s = k ->
  loopInvariant t sm gm st ->
  loopInvariant t sm gm (matchSales t gm st (k, s :: b)).
Proof.
  intros Hgm Hin Hk Hst. destruct st as [r P].
  assert (Hs : heads sm s) by (by exists k, b).
  unfold matchSales.
  set (r0 := if (1 <? length (s :: b))%nat then _ else r).
  assert (H0 : loopInvariant t sm gm (r0, P))
    by (subst r0; destruct (1 <? length (s :: b))%nat; exact Hst).
  clearbody r0.
  assert (Hfuzzy :
    k ∉ map fst gm ->
    loopInvariant t sm gm
      match findFuzzyMatch s gm P with
      | Some fuzzyMatch =>
          (classify
             (markFuzzy (compareInvoices s (fm_invoice fuzzyMatch) t)
                (fm_confidence fuzzyMatch)) r0,
           {[ normalizeInvoiceNo (invoiceNo (fm_invoice fuzzyMatch)) ]} ∪ P)
      | None => (pushMissingSales (missingInGSTR1 s) r0, P)
      end).
  { intros Hnone.
    destruct (findFuzzyMatch s gm P) as [fm|] eqn:Hf;
      [|by apply loopInvariant_missing].
    apply findFuzzyMatch_Some in Hf as [(k' & b' & Hin' & Hk') Hconf].
    destruct (Hgm _ _ Hin') as [_ Hb'].
    destruct (Hb' (fm_invoice fm)) as [Hkey _]; [left|].
    apply (loopInvariant_classify t sm gm r0 P
             (markFuzzy (compareInvoices s (fm_invoice fm) t)
                (fm_confidence fm))); [done| |done|by exists k', b'].
    split; [done|]. left. split; [done|].
    split; [destruct Hconf as [-> | ->]; auto|].
    cbn [salesInvoice gstr1Invoice markFuzzy compareInvoices].
    rewrite Hk, Hkey. intros ->. apply Hnone.
    apply list_elem_of_In, in_map_iff. exists (k', fm_invoice fm :: b').
    split; [done|]. by apply list_elem_of_In. }
  destruct (mapGet k gm) as [[|g gs]|] eqn:Hget.
  - apply mapGet_Some in Hget. by destruct (Hgm _ _ Hget) as [? _].
  - apply mapGet_Some in Hget.
    destruct (Hgm _ _ Hget) as [_ Hb'].
    destruct (Hb' g) as [Hkey _]; [left|].
    set (r1 := if (1 <? length (g :: gs))%nat then _ else r0).
    assert (H1 : loopInvariant t sm gm (r1, P))
      by (subst r1; destruct (1 <? length (g :: gs))%nat; exact H0).
    clearbody r1.
    rewrite <- Hkey at 1.
    apply (loopInvariant_classify t sm gm r1 P (compareInvoices s g t));
      [done| |done|by exists k, gs].
    split; [done|]. right. repeat split.
    cbn [salesInvoice gstr1Invoice compareInvoices]. congruence.
  - apply Hfuzzy. by apply mapGet_None.
Qed.

End LoopFacts.

(* ===================================================================== *)
(** ** The whole of [reconcileData] *)
(* ===================================================================== *)

Module ReconcileFacts.
Import Reconciliation IndexFacts LoopFacts.

(** The first loop establishes its invariant. *)
Lemma matchAll_invariant L R t :
  loopInvariant t (buildInvoiceMap L "sales") (buildInvoiceMap R "gstr1")
    (matchAll L R t).
Proof.
  unfold matchAll.
  pose proof (buildInvoiceMap_wellFormed L "sales") as Hsm.
  pose proof (buildInvoiceMap_wellFormed R "gstr1") as Hgm.
  apply fold_left_invariant.
  - unfold loopInvariant, countersAgree, pairs. cbn.
    split; [done|]. split; [done|].
    do 4 (split; [intros ? Hnil; by apply elem_of_nil in Hnil|]).
    intros k. split.
    + intros Hk. by apply elem_of_empty in Hk.
    + intros (c & Hc & _). by apply elem_of_nil in Hc.
  - intros st [k [|s b]] Hin Hst.
    + by destruct (Hsm _ _ Hin) as [? _].
    + apply matchSales_invariant; [done..| |done].
      destruct (Hsm _ _ Hin) as [_ Hb]. apply Hb. left.
Qed.




Lemma extends_refl r : extends r r [].
Proof. unfold extends. rewrite app_nil_r. cbn. repeat split; lia. Qed.

Lemma extends_push r r' ms inv :
  extends r r' ms ->
  extends r (pushMissingGSTR1 (missingInSales inv) r')
          (ms ++ [missingInSales inv]).
Proof.
  unfold extends. cbn. intros (-> & -> & -> & -> & -> & -> & -> & ->).
  rewrite length_app, app_assoc. cbn. repeat split; lia.
Qed.

Lemma extends_bucket r r' ms b :
  extends r r' ms ->
  extends r
    (fold_left (fun r inv => pushMissingGSTR1 (missingInSales inv) r) b r')
    (ms ++ map missingInSales b).
Proof.
  revert r' ms. induction b as [|inv b IH]; intros r' ms H; cbn.
  - by rewrite app_nil_r.
  - replace (ms ++ missingInSales inv :: map missingInSales b)
      with ((ms ++ [missingInSales inv]) ++ map missingInSales b)
      by (by rewrite <- app_assoc).
    apply IH. by apply extends_push.
Qed.

(** The second loop reports the invoices of the unprocessed buckets,
    and nothing else. *)
Lemma reportUnprocessed_extends P gm r :
  extends r (fold_left (reportUnprocessed P) gm r)
          (map missingInSales (unprocessed P gm)).
Proof.
  enough (G : forall r' ms, extends r r' ms ->
             extends r (fold_left (reportUnprocessed P) gm r')
               (ms ++ map missingInSales (unprocessed P gm)))
    by (apply (G r []), extends_refl).
  induction gm as [|[k b] gm IH]; intros r' ms H; cbn.
  - by rewrite app_nil_r.
  - destruct (decide (k ∈ P)); cbn; [by apply IH|].
    rewrite map_app, app_assoc. apply IH. by apply extends_bucket.
Qed.

Lemma extends_roundSummary r r' ms :
  extends r r' ms -> extends r (roundSummary r') ms.
Proof. exact (fun H => H). Qed.

(** [reconcileData] in terms of its first loop. *)
Lemma reconcileData_extends L R o :
  extends (fst (matchAll L R (effectiveTolerance o)))
          (reconcileData L R o)
          (map missingInSales
             (unprocessed (snd (matchAll L R (effectiveTolerance o)))
                (buildInvoiceMap R "gstr1"))).
Proof.
  unfold reconcileData.
  destruct (matchAll L R (effectiveTolerance o)) as [r P]. cbn [fst snd].
  apply extends_roundSummary, reportUnprocessed_extends.
Qed.

Lemma pairs_extends r r' ms : extends r r' ms -> pairs r' = pairs r.
Proof. intros (Hm & Hmm & _). unfold pairs. by rewrite Hm, Hmm. Qed.

End ReconcileFacts.

(* ===================================================================== *)
(** ** Completeness and the fate of invoices without identifier *)
(* ===================================================================== *)

Module Completeness.
Import Reconciliation IndexFacts LoopFacts ReconcileFacts.


Lemma elem_of_unprocessed P gm x :
  x ∈ unprocessed P gm -> exists k b, (k, b) ∈ gm /\ x ∈ b.
Proof.
  unfold unprocessed. intros H.
  apply list_elem_of_In, in_flat_map in H as ([k b] & Hin & Hx).
  cbn [fst snd] in Hx. destruct (decide (k ∈ P)); [done|].
  exists k, b. by rewrite !list_elem_of_In.
Qed.

Lemma heads_wellFormed m x :
  wellFormed m -> heads m x -> hasIdentifier x /\ keyOf x ∈ map fst m.
Proof.
  intros Hm (k & b & Hin). destruct (Hm _ _ Hin) as [_ Hb].
  destruct (Hb x) as [Hk Hx]; [left|]. split; [done|].
  apply list_elem_of_In, in_map_iff. exists (k, x :: b).
  split; [done | by apply list_elem_of_In].
Qed.

Lemma elem_of_map {A B} (f : A -> B) (l : list A) (y : B) :
  y ∈ map f l <-> exists x, x ∈ l /\ f x = y.
Proof.
  rewrite list_elem_of_In, in_map_iff.
  split; intros (x & H1 & H2); exists x.
  - by rewrite list_elem_of_In.
  - by rewrite <- list_elem_of_In.
Qed.




(** C8, as amended -- invoices without identifier.  An invoice whose
    identifier is absent or empty is kept out of both indexes, and
    [reconcileData] (which is total: it never raises) reports it in
    none of its four buckets, neither as it is nor tagged with its
    source. *)
Theorem unidentified_is_dropped (L R : list Invoice) (o : Options)
    (inv : Invoice) :
  Js.truthyOpt (invoiceNo inv) = false ->
  (forall invoices src k b,
      (k, b) ∈ buildInvoiceMap invoices src ->
      (inv ∉ b) /\ (withSource inv src ∉ b))
  /\ (forall src,
         (inv ∉ reported (reconcileData L R o))
         /\ (withSource inv src ∉ reported (reconcileData L R o))).
Proof.
  intros Hno.
  assert (Hbucket : forall invoices src k b x,
             (k, b) ∈ buildInvoiceMap invoices src -> x ∈ b ->
             hasIdentifier x).
  { intros invoices src k b x Hin Hx.
    destruct (buildInvoiceMap_wellFormed invoices src k b Hin) as [_ Hb].
    by apply Hb. }
  assert (Hrep : forall x, x ∈ reported (reconcileData L R o) ->
                      hasIdentifier x).
  { intros x Hx.
    pose proof (matchAll_invariant L R (effectiveTolerance o)) as Hinv.
    pose proof (reconcileData_extends L R o) as Hext.
    pose proof (buildInvoiceMap_wellFormed L "sales") as Hsm.
    pose proof (buildInvoiceMap_wellFormed R "gstr1") as Hgm.
    unfold reported in Hx. rewrite (pairs_extends _ _ _ Hext) in Hx.
    destruct Hext as (_ & _ & Ems & Emg & _). rewrite Ems, Emg in Hx.
    destruct (matchAll L R (effectiveTolerance o)) as [r1 P].
    unfold loopInvariant in Hinv. cbn [fst snd] in *.
    destruct Hinv as (_ & Hmiss & Hp & _ & _ & Hms & _).
    rewrite Hmiss in Hx. cbn [app] in Hx.
    rewrite !elem_of_app in Hx.
    destruct Hx as [Hx|[Hx|[Hx|Hx]]].
    - apply elem_of_map in Hx as (c & Hc & <-).
      destruct (Hp c Hc) as (_ & Hh & _).
      by destruct (heads_wellFormed _ _ Hsm Hh).
    - apply elem_of_map in Hx as (c & Hc & <-).
      destruct (Hp c Hc) as (_ & _ & Hh).
      by destruct (heads_wellFormed _ _ Hgm Hh).
    - apply elem_of_map in Hx as (m & Hm & <-).
      by destruct (heads_wellFormed _ _ Hsm (Hms m Hm)).
    - apply elem_of_map in Hx as (m & Hm & <-).
      apply elem_of_map in Hm as (x & Hx & <-). cbn.
      apply elem_of_unprocessed in Hx as (k & b & Hin & Hx).
      by apply (Hbucket R "gstr1" k b). }
  assert (Hinv : ~ hasIdentifier inv)
    by (unfold hasIdentifier; rewrite Hno; discriminate).
  assert (Hsrc : forall src, ~ hasIdentifier (withSource inv src))
    by (intros src; exact Hinv).
  split.
  - intros invoices src k b Hin.
    split; intros Hx; [apply Hinv | apply (Hsrc src)];
      by apply (Hbucket invoices src k b).
  - intros src.
    split; intros Hx; [apply Hinv | apply (Hsrc src)]; by apply Hrep.
Qed.

Lemma unidentified_is_dropped_witness :
  (forall invoices src k b,
      (k, b) ∈ buildInvoiceMap invoices src ->
      (Examples.absentNo ∉ b) /\ (withSource Examples.absentNo src ∉ b))
  /\ (forall src,
         (Examples.absentNo
            ∉ reported (reconcileData [Examples.absentNo]
                          [Examples.emptyNo] Examples.defaults))
         /\ (withSource Examples.absentNo src
               ∉ reported (reconcileData [Examples.absentNo]
                             [Examples.emptyNo] Examples.defaults))).
Proof.
  apply (unidentified_is_dropped [Examples.absentNo] [Examples.emptyNo]
           Examples.defaults Examples.absentNo).
  reflexivity.
Defined.

(** C8, as stated, fails: rows without identifier on either side are
    not reported as missing; every bucket stays empty. *)
Lemma unidentified_not_reported_missing :
  let r := reconcileData [Examples.absentNo] [Examples.emptyNo]
             Examples.defaults in
  missingSalesInGSTR1 r = [] /\ missingGSTR1InSales r = []
  /\ matched r = [] /\ mismatched r = []
  /\ n_missingSalesInGSTR1 (summary r) = 0%nat
  /\ n_missingGSTR1InSales (summary r) = 0%nat.
Proof. vm_compute. repeat split. Qed.

End Completeness.

(* ===================================================================== *)
(** ** The purchase-side loop *)
(* ===================================================================== *)

Module PurchaseFacts.
Import Gstr2Reconciliation.

Lemma buildFrom_wellFormed i rows m :
  wellFormed m -> wellFormed (buildFrom i rows m).
Proof.
  revert i m. induction rows as [|g rows IH]; intros i m Hm; cbn; [done|].
  apply IH. intros k l c Hl Hc.
  destruct (decide (gstr2Key g = k)) as [<-|Hne].
  - rewrite lookup_insert_eq in Hl. injection Hl as <-.
    apply elem_of_app in Hc as [Hc|Hc].
    + destruct (m !! gstr2Key g) as [l0|] eqn:E; cbn in Hc.
      * by apply (Hm _ l0).
      * by apply elem_of_nil in Hc.
    + by apply list_elem_of_singleton in Hc as ->.
  - rewrite lookup_insert_ne in Hl by done. by apply (Hm _ l).
Qed.

(** What [findFuzzyMatch2A] returns, from index [i] on. *)
Lemma findFuzzyFrom_Some p used i rows c :
  findFuzzyFrom p used i rows = Some c ->
  (_index c ∉ used)
  /\ (i <= _index c)%nat
  /\ rows !! (_index c - i)%nat = Some (row c)
  /\ purchaseGSTIN p <> ""
  /\ purchaseGSTIN p = gstr2GSTIN (row c)
  /\ Z.abs (totalAmount p - totalAmount (row c)) <= 100.
Proof.
  revert i. induction rows as [|g rows IH]; intros i; cbn; [done|].
  assert (Hrec : findFuzzyFrom p used (S i) rows = Some c ->
                 (_index c ∉ used)
                 /\ (i <= _index c)%nat
                 /\ (g :: rows) !! (_index c - i)%nat = Some (row c)
                 /\ purchaseGSTIN p <> ""
                 /\ purchaseGSTIN p = gstr2GSTIN (row c)
                 /\ Z.abs (totalAmount p - totalAmount (row c)) <= 100).
  { intros H. destruct (IH _ H) as (H1 & H2 & H3 & H4).
    split; [done|]. split; [lia|]. split; [|done].
    replace (_index c - i)%nat with (S (_index c - S i)) by lia.
    exact H3. }
  destruct (decide (i ∈ used)) as [|Hi]; [done|].
  destruct (_ && _) eqn:Hc; [|done].
  intros [= <-]. cbn.
  apply andb_true_iff in Hc as [Hc Hamt].
  apply andb_true_iff in Hc as [Hne Heq].
  apply truthy_true in Hne. apply String.eqb_eq in Heq.
  apply Z.leb_le in Hamt.
  replace (i - i)%nat with 0%nat by lia. done.
Qed.

(** [findFuzzyMatch2A] only returns rows it accepts. *)
Lemma findFuzzyMatch2A_accepted p rows used c :
  findFuzzyMatch2A p rows used = Some c -> accepted p rows used c.
Proof.
  intros H. apply findFuzzyFrom_Some in H as (H1 & _ & H3 & H4).
  rewrite Nat.sub_0_r in H3. done.
Qed.

Lemma firstUnused_Some used l c : firstUnused used l = Some c -> c ∈ l.
Proof.
  unfold firstUnused. intros H. apply find_some in H as [H _].
  by apply list_elem_of_In.
Qed.

(** One iteration of the purchase loop records its pair as described. *)
Lemma matchPurchase_asRecorded t rows m st p :
  wellFormed m -> asRecorded t (fst st) ->
  asRecorded t (fst (matchPurchase t rows m st p)).
Proof.
  intros Hm [Hma Hmi]. destruct st as [r used]. cbn [fst] in *.
  unfold matchPurchase.
  destruct (firstUnused used (default [] (m !! purchaseKey p)))
    as [c|] eqn:Hfirst.
  - apply firstUnused_Some in Hfirst.
    assert (Hkey : purchaseKey p = gstr2Key (row c)).
    { destruct (m !! purchaseKey p) as [l|] eqn:E; cbn in Hfirst.
      - symmetry. by apply (Hm _ l).
      - by apply elem_of_nil in Hfirst. }
    cbn [fst].
    destruct (isEmpty (comparePurchaseInvoice p (row c) t)) eqn:He.
    + assert (He' : comparePurchaseInvoice p (row c) t = [])
        by (by destruct (comparePurchaseInvoice p (row c) t)).
      split; [|exact Hmi]. cbn. intros q Hq.
      apply LoopFacts.elem_of_snoc in Hq as [Hq| ->]; [by apply Hma|].
      unfold exactRecord. cbn. by rewrite He'.
    + assert (He' : comparePurchaseInvoice p (row c) t <> [])
        by (by destruct (comparePurchaseInvoice p (row c) t)).
      split; [exact Hma|]. cbn. intros q Hq.
      apply LoopFacts.elem_of_snoc in Hq as [Hq| ->]; [by apply Hmi|].
      left. unfold exactRecord. cbn. done.
  - destruct (findFuzzyMatch2A p rows used) as [fm|]; cbn [fst].
    + split; [exact Hma|]. cbn. intros q Hq.
      apply LoopFacts.elem_of_snoc in Hq as [Hq| ->]; [by apply Hmi|].
      right. reflexivity.
    + split; [exact Hma | exact Hmi].
Qed.

(** The last loop leaves the pairs alone. *)
Lemma reportUnused_lists used i rows r :
  matched (reportUnused used i rows r) = matched r
  /\ mismatched (reportUnused used i rows r) = mismatched r.
Proof.
  revert i r. induction rows as [|g rows IH]; intros i r; cbn; [done|].
  destruct (IH (S i) (if decide (i ∈ used) then r
                      else pushMissingInPurchase g r)) as [-> ->].
  by destruct (decide (i ∈ used)).
Qed.

Lemma reconcilePurchase_asRecorded purchaseData gstr2Data o :
  asRecorded (effectiveTolerance o)
    (reconcilePurchaseWith2A2B purchaseData gstr2Data o).
Proof.
  unfold reconcilePurchaseWith2A2B.
  set (t := effectiveTolerance o).
  set (m := buildFrom 0 gstr2Data ∅).
  assert (Hm : wellFormed m).
  { apply buildFrom_wellFormed. intros k l c H.
    by rewrite lookup_empty in H. }
  set (init := (_, ∅) : MatchState).
  assert (H : asRecorded t
                (fst (fold_left (matchPurchase t gstr2Data m)
                        purchaseData init))).
  { apply (fold_left_invariant (fun st => asRecorded t (fst st))).
    - split; intros p Hp; by apply elem_of_nil in Hp.
    - intros st p _. by apply matchPurchase_asRecorded. }
  destruct (fold_left _ purchaseData init) as [r used]. cbn [fst] in H.
  unfold asRecorded.
  destruct (reportUnused_lists used 0 gstr2Data r) as [-> ->]. exact H.
Qed.

(** A booked purchase found by the fallback only: the pair is reported in
    [mismatched] and its only discrepancy is the remark. *)
Example purchase_fuzzy_pair :
  let r := reconcilePurchaseWith2A2B [Examples.booked] [Examples.filed]
             (mkOptions None) in
  matched r = []
  /\ map discrepancies (mismatched r)
     = [[invoiceNoRemark Examples.booked Examples.filed]]
  /\ missingInGSTR2 r = [] /\ missingInPurchase r = [].
Proof. vm_compute. repeat split. Qed.

End PurchaseFacts.

(* ===================================================================== *)
(** ** The tolerance *)
(* ===================================================================== *)

Module ToleranceFacts.
Import Reconciliation IndexFacts LoopFacts ReconcileFacts.

Lemma compareField_monotone t1 t2 key label a b :
  t1 <= t2 -> compareField t1 key label a b = [] ->
  compareField t2 key label a b = [].
Proof.
  unfold compareField. intros Ht.
  destruct (Z.ltb_spec t1 (Z.abs (a - b))); [done|].
  destruct (Z.ltb_spec t2 (Z.abs (a - b))); [lia | done].
Qed.

(** A pair without discrepancies keeps none under a larger tolerance. *)
Lemma compareInvoices_monotone s g t1 t2 :
  t1 <= t2 ->
  discrepancies (compareInvoices s g t1) = [] ->
  discrepancies (compareInvoices s g t2) = [].
Proof.
  intros Ht. unfold compareInvoices. cbn [discrepancies].
  intros H.
  repeat match goal with
         | H : _ ++ _ = [] |- _ => apply app_eq_nil in H as [? ?]
         end.
  repeat match goal with
         | H : compareField t1 _ _ _ _ = [] |- _ =>
             apply (compareField_monotone t1 t2 _ _ _ _ Ht) in H; rewrite H
         end.
  cbn [app].
  repeat match goal with
         | H : (if _ then _ else _) = [] |- _ => rewrite H; clear H
         end.
  done.
Qed.

Lemma pairing_compareInvoices s g t1 t2 :
  pairing (compareInvoices s g t1) = pairing (compareInvoices s g t2).
Proof. reflexivity. Qed.

Lemma pairing_markFuzzy c1 c2 q :
  pairing c1 = pairing c2 -> pairing (markFuzzy c1 q) = pairing (markFuzzy c2 q).
Proof. unfold pairing. cbn. congruence. Qed.

Lemma pairs_classify c r :
  map pairing (pairs (classify c r)) ≡ₚ pairing c :: map pairing (pairs r).
Proof.
  unfold classify, pairs.
  destruct (isEmpty (discrepancies c)); cbn; rewrite !map_app; cbn.
  - rewrite <- app_assoc. cbn. symmetry. apply Permutation_middle.
  - rewrite app_assoc. symmetry. apply Permutation_cons_append.
Qed.

(** Recording the same pairing in both runs keeps them related. *)
Lemma related_classify t1 t2 r1 r2 P c1 c2 k :
  related t1 t2 (r1, P) (r2, P) ->
  pairing c1 = pairing c2 ->
  (t1 <= t2 -> discrepancies c1 = [] -> discrepancies c2 = []) ->
  related t1 t2 (classify c1 r1, {[ k ]} ∪ P) (classify c2 r2, {[ k ]} ∪ P).
Proof.
  unfold related. cbn [fst snd]. intros (_ & Hperm & Hms & Hmore) Hc Hmono.
  split; [done|]. split.
  { rewrite !pairs_classify, Hc. by apply Permutation_skip. }
  split.
  { unfold classify.
    destruct (isEmpty (discrepancies c1)), (isEmpty (discrepancies c2));
      exact Hms. }
  intros Ht. specialize (Hmore Ht). specialize (Hmono Ht).
  unfold moreMatched, classify in *.
  destruct (isEmpty (discrepancies c1)) eqn:E1.
  - apply isEmpty_true in E1.
    rewrite (proj2 (isEmpty_true _) (Hmono E1)).
    cbn. rewrite !length_app. cbn. lia.
  - destruct (isEmpty (discrepancies c2)); cbn; rewrite !length_app; cbn; lia.
Qed.

(** One iteration of the first loop keeps two runs related. *)
Lemma matchSales_related t1 t2 gm st1 st2 e :
  related t1 t2 st1 st2 ->
  related t1 t2 (matchSales t1 gm st1 e) (matchSales t2 gm st2 e).
Proof.
  destruct st1 as [r1 P], st2 as [r2 P2], e as [k [|s b]]; [done|].
  intros Hrel. assert (P2 = P) as -> by (symmetry; apply Hrel).
  unfold matchSales.
  set (a1 := if (1 <? length (s :: b))%nat then _ else r1).
  set (a2 := if (1 <? length (s :: b))%nat then _ else r2).
  assert (H0 : related t1 t2 (a1, P) (a2, P))
    by (subst a1 a2; destruct (1 <? length (s :: b))%nat; exact Hrel).
  clearbody a1 a2.
  assert (Hfuzzy :
    related t1 t2
      match findFuzzyMatch s gm P with
      | Some fuzzyMatch =>
          (classify
             (markFuzzy (compareInvoices s (fm_invoice fuzzyMatch) t1)
                (fm_confidence fuzzyMatch)) a1,
           {[ normalizeInvoiceNo (invoiceNo (fm_invoice fuzzyMatch)) ]} ∪ P)
      | None => (pushMissingSales (missingInGSTR1 s) a1, P)
      end
      match findFuzzyMatch s gm P with
      | Some fuzzyMatch =>
          (classify
             (markFuzzy (compareInvoices s (fm_invoice fuzzyMatch) t2)
                (fm_confidence fuzzyMatch)) a2,
           {[ normalizeInvoiceNo (invoiceNo (fm_invoice fuzzyMatch)) ]} ∪ P)
      | None => (pushMissingSales (missingInGSTR1 s) a2, P)
      end).
  { destruct (findFuzzyMatch s gm P) as [fm|].
    - apply related_classify; [done|done|].
      intros Ht. by apply compareInvoices_monotone.
    - unfold related in *. cbn [fst snd] in *.
      destruct H0 as (_ & Hperm & Hms & Hmore).
      split; [done|]. split; [exact Hperm|].
      split; [cbn; by rewrite Hms|]. intros Ht. exact (Hmore Ht). }
  destruct (mapGet k gm) as [[|g gs]|]; [done| |done].
  set (b1 := if (1 <? length (g :: gs))%nat then _ else a1).
  set (b2 := if (1 <? length (g :: gs))%nat then _ else a2).
  assert (H1 : related t1 t2 (b1, P) (b2, P))
    by (subst b1 b2; destruct (1 <? length (g :: gs))%nat; exact H0).
  clearbody b1 b2.
  apply related_classify; [done|done|].
  intros Ht. by apply compareInvoices_monotone.
Qed.

Lemma matchAll_related L R t1 t2 :
  related t1 t2 (matchAll L R t1) (matchAll L R t2).
Proof.
  unfold matchAll. apply fold_left_related.
  - unfold related, moreMatched. cbn. repeat split; done.
  - intros st1 st2 e _. apply matchSales_related.
Qed.

(** C9, as amended -- monotone in the effective tolerance.  When the
    tolerance in force in the first run ([toleranceAmount || 1]) is at
    most the one in force in the second, the second run reports no more
    mismatched and no fewer matched pairs, in the counters of the
    summary and in the lists. *)
Theorem tolerance_monotone (L R : list Invoice) (o1 o2 : Options) :
  effectiveTolerance o1 <= effectiveTolerance o2 ->
  (n_mismatched (summary (reconcileData L R o2))
   <= n_mismatched (summary (reconcileData L R o1)))%nat
  /\ (n_matched (summary (reconcileData L R o1))
      <= n_matched (summary (reconcileData L R o2)))%nat
  /\ (length (mismatched (reconcileData L R o2))
      <= length (mismatched (reconcileData L R o1)))%nat
  /\ (length (matched (reconcileData L R o1))
      <= length (matched (reconcileData L R o2)))%nat.
Proof.
  intros Ht.
  destruct (matchAll_related L R (effectiveTolerance o1)
              (effectiveTolerance o2)) as (_ & _ & _ & Hmore).
  destruct (Hmore Ht) as (H1 & H2 & H3 & H4).
  destruct (reconcileData_extends L R o1)
    as (-> & -> & _ & _ & -> & -> & _).
  destruct (reconcileData_extends L R o2)
    as (-> & -> & _ & _ & -> & -> & _).
  lia.
Qed.

Lemma tolerance_monotone_witness :
  effectiveTolerance Examples.halfRupee
    <= effectiveTolerance Examples.zeroTolerance
  /\ (n_mismatched (summary (reconcileData Examples.nearLeft
                               Examples.nearRight Examples.zeroTolerance))
      <= n_mismatched (summary (reconcileData Examples.nearLeft
                                  Examples.nearRight Examples.halfRupee)))%nat.
Proof.
  assert (H : effectiveTolerance Examples.halfRupee
              <= effectiveTolerance Examples.zeroTolerance)
    by (vm_compute; discriminate).
  split; [exact H|].
  exact (proj1 (tolerance_monotone Examples.nearLeft Examples.nearRight
                  Examples.halfRupee Examples.zeroTolerance H)).
Defined.

(** C9, as stated, fails at [toleranceAmount = 0]: zero is replaced by
    one rupee, so raising the tolerance from 0 to half a rupee lowers
    the tolerance in force, and a pair whose totals are 80 paise apart
    goes from matched to mismatched. *)
Lemma tolerance_not_monotone_from_zero :
  let r1 := reconcileData Examples.nearLeft Examples.nearRight
              Examples.zeroTolerance in
  let r2 := reconcileData Examples.nearLeft Examples.nearRight
              Examples.halfRupee in
  toleranceAmount Examples.zeroTolerance = Some 0
  /\ toleranceAmount Examples.halfRupee = Some 50
  /\ n_matched (summary r1) = 1%nat /\ n_mismatched (summary r1) = 0%nat
  /\ n_matched (summary r2) = 0%nat /\ n_mismatched (summary r2) = 1%nat
  /\ ~ ((n_mismatched (summary r2) <= n_mismatched (summary r1))%nat
        /\ (n_matched (summary r1) <= n_matched (summary r2))%nat).
Proof.
  cbv zeta. repeat (split; [vm_compute; reflexivity|]).
  vm_compute. intros [H _]. inversion H.
Qed.




End ToleranceFacts.

(* ===================================================================== *)
(** ** How a fuzzy pair is recorded *)
(* ===================================================================== *)

Module FuzzyRecords.
Import Reconciliation IndexFacts LoopFacts ReconcileFacts.

Lemma compareField_field t key label a b d :
  d ∈ compareField t key label a b -> field d = key.
Proof.
  unfold compareField. destruct (t <? Z.abs (a - b)); intros H.
  - by apply list_elem_of_singleton in H as ->.
  - by apply elem_of_nil in H.
Qed.

(** [compareInvoices] never reports on the invoice number. *)
Lemma compareInvoices_fields s g t d :
  d ∈ discrepancies (compareInvoices s g t) -> field d <> "invoiceNo".
Proof.
  unfold compareInvoices. cbn [discrepancies]. rewrite !elem_of_app.
  intros H.
  repeat match goal with
         | H : _ \/ _ |- _ => destruct H as [H|H]
         | H : _ ∈ compareField _ _ _ _ _ |- _ =>
             apply compareField_field in H; rewrite H; discriminate
         | H : _ ∈ (if ?b then _ else _) |- _ => destruct b
         | H : _ ∈ [_] |- _ =>
             apply list_elem_of_singleton in H as ->; discriminate
         | H : _ ∈ [] |- _ => by apply elem_of_nil in H
         end.
Qed.

(** C7, as amended -- what a fuzzy pair carries.  On the sales side a
    pair holds exactly the discrepancies of [compareInvoices], none of
    which is about the invoice number; a fuzzy pair has
    [matchType = "fuzzy"] and its score, 0.9 or 0.7, an exact pair has
    no score; and a pair is in [matched] exactly when it has no
    discrepancy, fuzzy or not.  On the purchase side [matched] holds
    exact pairs without discrepancies only, so every fuzzy pair is in
    [mismatched], with the compared fields' discrepancies followed by
    the invoice-number remark; no score is recorded there. *)
Theorem fuzzy_pair_records :
  (forall (L R : list Invoice) (o : Options) (c : Comparison),
      c ∈ pairs (reconcileData L R o) ->
      pairRecord (effectiveTolerance o) c
      /\ (forall d, d ∈ discrepancies c -> field d <> "invoiceNo")
      /\ (c ∈ matched (reconcileData L R o) <-> discrepancies c = []))
  /\ (forall (purchaseData gstr2Data : list Gstr2Reconciliation.Row)
             (o : Gstr2Reconciliation.Options),
         Gstr2Reconciliation.asRecorded
           (Gstr2Reconciliation.effectiveTolerance o)
           (Gstr2Reconciliation.reconcilePurchaseWith2A2B
              purchaseData gstr2Data o)).
Proof.
  split; [|apply PurchaseFacts.reconcilePurchase_asRecorded].
  intros L R o c Hc.
  pose proof (matchAll_invariant L R (effectiveTolerance o)) as Hinv.
  pose proof (reconcileData_extends L R o) as Hext.
  rewrite (pairs_extends _ _ _ Hext) in Hc.
  destruct Hext as (-> & _).
  destruct (matchAll L R (effectiveTolerance o)) as [r1 P].
  unfold loopInvariant in Hinv. cbn [fst snd] in *.
  destruct Hinv as (_ & _ & Hp & Hm & Hmm & _).
  destruct (Hp c Hc) as (Hrec & _).
  split; [exact Hrec|]. split.
  - intros d Hd. destruct Hrec as [Hd' _]. rewrite Hd' in Hd.
    by apply compareInvoices_fields in Hd.
  - split; [apply Hm|]. intros He.
    unfold pairs in Hc. apply elem_of_app in Hc as [Hc|Hc]; [done|].
    by destruct (Hmm c Hc).
Qed.

Lemma fuzzy_pair_records_witness :
  Examples.amountPair
    ∈ pairs (reconcileData Examples.amountLeft Examples.amountRight
               Examples.defaults)
  /\ pairRecord (effectiveTolerance Examples.defaults) Examples.amountPair.
Proof.
  assert (H : Examples.amountPair
                ∈ pairs (reconcileData Examples.amountLeft
                           Examples.amountRight Examples.defaults))
    by (vm_compute; left).
  split; [exact H|].
  exact (proj1 (proj1 fuzzy_pair_records Examples.amountLeft
                  Examples.amountRight Examples.defaults
                  Examples.amountPair H)).
Defined.

(** C7, as stated, fails: in scenario 2 of the specification the pair
    found by the fuzzy fallback at confidence 0.7 is reported in
    [matched] with an empty list of discrepancies. *)
Lemma fuzzy_pair_without_annotation :
  let r := reconcileData Examples.amountLeft Examples.amountRight
             Examples.defaults in
  map matchType (matched r) = ["fuzzy"]
  /\ map matchConfidence (matched r) = [Some (7 # 10)]
  /\ map status (matched r) = ["MATCHED"]
  /\ map discrepancies (matched r) = [[]]
  /\ mismatched r = [].
Proof. vm_compute. repeat split. Qed.

End FuzzyRecords.

(* ===================================================================== *)
(** ** More on the waterfall *)
(* ===================================================================== *)

Module WaterfallMore.
Import Gstr3b.

Ltac split_all :=
  repeat match goal with
         | |- _ /\ _ => split
         | |- _ -> _ => intro
         end.

Ltac open_waterfall :=
  unfold computeTaxPayment, withTotal, nonneg in *;
  cbn [liability itcAvailable utilization itcUtilized cashPayable
       itcBalance totalLiability netPayable h_igst h_cgst h_sgst h_cess
       h_total igstToIgst igstToCgst igstToSgst cgstToCgst cgstToIgst
       sgstToSgst sgstToIgst cessTocess totalLiability_3_1 netITC
       igst cgst sgst cess] in *;
  rewrite ?round2_paise in *.

(** X1 -- no cash is paid under a head while credit that may be set off
    against it is left: cash for IGST means that the IGST, CGST and SGST
    balances are all zero, cash for CGST (SGST) that the IGST and CGST
    (SGST) balances are zero, cash for CESS that the CESS balance is
    zero. *)
Theorem no_cash_while_credit_remains (t3 : Table3_1) (t4 : Table4)
    (pb : Heads) :
  nonneg (totalLiability_3_1 t3) -> nonneg (netITC t4) ->
  let r := computeTaxPayment t3 t4 pb in
  (0 < h_igst (cashPayable r) ->
   h_igst (itcBalance r) = 0 /\ h_cgst (itcBalance r) = 0
   /\ h_sgst (itcBalance r) = 0)
  /\ (0 < h_cgst (cashPayable r) ->
      h_igst (itcBalance r) = 0 /\ h_cgst (itcBalance r) = 0)
  /\ (0 < h_sgst (cashPayable r) ->
      h_igst (itcBalance r) = 0 /\ h_sgst (itcBalance r) = 0)
  /\ (0 < h_cess (cashPayable r) -> h_cess (itcBalance r) = 0).
Proof.
  destruct t3 as [[li lc ls lx]], t4 as [[ai ac as_ ax]].
  intros H H'. cbv zeta. open_waterfall. split_all; lia.
Qed.

Lemma no_cash_while_credit_remains_witness :
  nonneg (totalLiability_3_1 Examples.table3_1)
  /\ nonneg (netITC Examples.table4)
  /\ (0 < h_sgst (cashPayable (computeTaxPayment Examples.table3_1
                                 Examples.table4 Examples.noBalance)) ->
      h_igst (itcBalance (computeTaxPayment Examples.table3_1
                            Examples.table4 Examples.noBalance)) = 0
      /\ h_sgst (itcBalance (computeTaxPayment Examples.table3_1
                               Examples.table4 Examples.noBalance)) = 0).
Proof.
  assert (Hl : nonneg (totalLiability_3_1 Examples.table3_1))
    by (vm_compute; intuition discriminate).
  assert (Ha : nonneg (netITC Examples.table4))
    by (vm_compute; intuition discriminate).
  split; [exact Hl|]. split; [exact Ha|].
  exact (proj1 (proj2 (proj2 (no_cash_while_credit_remains
                                Examples.table3_1 Examples.table4
                                Examples.noBalance Hl Ha)))).
Defined.

(** X2 -- the order of the set-offs, seen in the result.  IGST credit
    reaches SGST liability only when it has covered the whole CGST
    liability; CGST (SGST) credit is used only when no IGST credit is
    left, and reaches IGST liability only when no CGST (SGST) is left to
    pay. *)
Theorem set_off_order (t3 : Table3_1) (t4 : Table4) (pb : Heads) :
  nonneg (totalLiability_3_1 t3) -> nonneg (netITC t4) ->
  let r := computeTaxPayment t3 t4 pb in
  let u := utilization r in
  (0 < igstToSgst u -> igstToCgst u = cgst (liability r))
  /\ (0 < cgstToCgst u \/ 0 < sgstToSgst u -> h_igst (itcBalance r) = 0)
  /\ (0 < cgstToIgst u -> h_cgst (cashPayable r) = 0)
  /\ (0 < sgstToIgst u -> h_sgst (cashPayable r) = 0).
Proof.
  destruct t3 as [[li lc ls lx]], t4 as [[ai ac as_ ax]].
  intros H H'. cbv zeta. open_waterfall. split_all; lia.
Qed.

Lemma set_off_order_witness :
  nonneg (totalLiability_3_1 Examples.table3_1)
  /\ nonneg (netITC Examples.table4)
  /\ (0 < cgstToCgst (utilization (computeTaxPayment Examples.table3_1
                                     Examples.table4 Examples.noBalance))
      \/ 0 < sgstToSgst (utilization (computeTaxPayment Examples.table3_1
                                        Examples.table4 Examples.noBalance))
      -> h_igst (itcBalance (computeTaxPayment Examples.table3_1
                               Examples.table4 Examples.noBalance)) = 0).
Proof.
  assert (Hl : nonneg (totalLiability_3_1 Examples.table3_1))
    by (vm_compute; intuition discriminate).
  assert (Ha : nonneg (netITC Examples.table4))
    by (vm_compute; intuition discriminate).
  split; [exact Hl|]. split; [exact Ha|].
  exact (proj1 (proj2 (set_off_order Examples.table3_1 Examples.table4
                         Examples.noBalance Hl Ha))).
Defined.





End WaterfallMore.

(* ===================================================================== *)
(** ** Normalized invoice numbers *)
(* ===================================================================== *)

Module KeyFacts.
Import Reconciliation ReconciliationMore Text.

Lemma toUpperChar_idem c : Js.toUpperChar (Js.toUpperChar c) = Js.toUpperChar c.
Proof. by destruct c as [[] [] [] [] [] [] [] []]. Qed.

Lemma toUpperChar_not_lower c : isLower (Js.toUpperChar c) = false.
Proof. by destruct c as [[] [] [] [] [] [] [] []]. Qed.

Lemma isWhitespace_toUpperChar c :
  Js.isWhitespace (Js.toUpperChar c) = Js.isWhitespace c.
Proof. by destruct c as [[] [] [] [] [] [] [] []]. Qed.

Lemma not_lower_toUpperChar c : isLower c = false -> Js.toUpperChar c = c.
Proof. by destruct c as [[] [] [] [] [] [] [] []]. Qed.

Lemma every_keep p q s : every q s = true -> every q (Js.keep p s) = true.
Proof.
  induction s as [|c s IH]; cbn; [done|].
  intros H. apply andb_true_iff in H as [Hc Hs].
  destruct (p c); cbn; [rewrite Hc|]; by apply IH.
Qed.

Lemma every_keep_self p s : every p (Js.keep p s) = true.
Proof.
  induction s as [|c s IH]; cbn; [done|].
  destruct (p c) eqn:E; cbn; [rewrite E|]; done.
Qed.

Lemma keep_every p s : every p s = true -> Js.keep p s = s.
Proof.
  induction s as [|c s IH]; cbn; [done|].
  intros H. apply andb_true_iff in H as [-> Hs]. by rewrite IH.
Qed.

Lemma every_dropWhile p q s :
  every q s = true -> every q (Js.dropWhile p s) = true.
Proof.
  induction s as [|c s IH]; cbn; [done|].
  intros H. destruct (p c); [|done].
  apply andb_true_iff in H as [_ Hs]. by apply IH.
Qed.

Lemma startsWith_dropWhile p s : startsWith p (Js.dropWhile p s) = false.
Proof.
  induction s as [|c s IH]; cbn; [done|].
  destruct (p c) eqn:E; [done|]. cbn. done.
Qed.

Lemma dropWhile_id p s : startsWith p s = false -> Js.dropWhile p s = s.
Proof. destruct s as [|c s]; cbn; [done|]. by intros ->. Qed.

Lemma every_and p q s :
  every (fun c => p c && q c) s = true <->
  every p s = true /\ every q s = true.
Proof.
  induction s as [|c s IH]; cbn; [done|].
  rewrite !andb_true_iff, IH. tauto.
Qed.

Lemma every_impl (p q : ascii -> bool) s :
  (forall c, p c = true -> q c = true) -> every p s = true ->
  every q s = true.
Proof.
  intros Hpq. induction s as [|c s IH]; cbn; [done|].
  intros H. apply andb_true_iff in H as [Hc Hs].
  by rewrite (Hpq c Hc), IH.
Qed.

Lemma every_toUpperCase s : every (fun c => negb (isLower c)) (Js.toUpperCase s) = true.
Proof.
  induction s as [|c s IH]; cbn; [done|].
  by rewrite toUpperChar_not_lower, IH.
Qed.

Lemma toUpperCase_id s :
  every (fun c => negb (isLower c)) s = true -> Js.toUpperCase s = s.
Proof.
  induction s as [|c s IH]; cbn; [done|].
  intros H. apply andb_true_iff in H as [Hc Hs].
  apply negb_true_iff in Hc. by rewrite not_lower_toUpperChar, IH.
Qed.

Lemma dropWhileEnd_id p s :
  every (fun c => negb (p c)) s = true -> Js.dropWhileEnd p s = s.
Proof.
  induction s as [|c s IH]; cbn; [done|].
  intros H. apply andb_true_iff in H as [Hc Hs].
  apply negb_true_iff in Hc. rewrite (IH Hs), Hc. by destruct s.
Qed.

(** Trimming leaves a string without whitespace alone. *)
Lemma trim_id s :
  every (fun c => negb (Js.isWhitespace c)) s = true -> Js.trim s = s.
Proof.
  intros H. unfold Js.trim. rewrite dropWhile_id.
  - by apply dropWhileEnd_id.
  - destruct s as [|c s]; cbn in *; [done|].
    apply andb_true_iff in H as [Hc _]. by apply negb_true_iff in Hc.
Qed.

(** The shape of a key: no whitespace, no lower-case letter, no leading
    zero. *)
Lemma normalizeInvoiceNo_shape o :
  every isKeyChar (normalizeInvoiceNo o) = true
  /\ startsWith isZeroChar (normalizeInvoiceNo o) = false.
Proof.
  destruct o as [s|]; cbn; [|done].
  destruct (Js.truthy s); cbn; [|done].
  split; [|apply startsWith_dropWhile].
  apply every_dropWhile. unfold isKeyChar. apply every_and. split.
  - apply every_keep_self.
  - apply every_keep, every_toUpperCase.
Qed.

(** X5 -- keys are canonical.  A normalized invoice number has no
    whitespace, no lower-case letter and no leading zero, and
    normalizing it again changes nothing. *)
Theorem normalizeInvoiceNo_canonical (o : option string) :
  every isKeyChar (normalizeInvoiceNo o) = true
  /\ startsWith isZeroChar (normalizeInvoiceNo o) = false
  /\ normalizeInvoiceNo (Some (normalizeInvoiceNo o)) = normalizeInvoiceNo o.
Proof.
  destruct (normalizeInvoiceNo_shape o) as [Hk Hz].
  split; [done|]. split; [done|].
  set (k := normalizeInvoiceNo o) in *. clearbody k.
  unfold isKeyChar in Hk. apply every_and in Hk as [Hws Hlow].
  unfold normalizeInvoiceNo. destruct (Js.truthy k) eqn:E; cbn.
  - rewrite (trim_id k Hws), (toUpperCase_id k Hlow), (keep_every _ k Hws).
    by apply dropWhile_id.
  - by destruct k.
Qed.

End KeyFacts.

(* ===================================================================== *)
(** ** Looking invoices up in the index *)
(* ===================================================================== *)

Module LookupFacts.
Import Reconciliation ReconciliationMore IndexFacts.

Lemma mapGet_mapPush k k' x m :
  mapGet k (mapPush k' x m)
  = if String.eqb k' k then Some (default [] (mapGet k m) ++ [x])
    else mapGet k m.
Proof.
  induction m as [|[k0 b0] m IH]; cbn.
  - by destruct (String.eqb k' k).
  - destruct (String.eqb_spec k0 k') as [->|Hne]; cbn.
    + by destruct (String.eqb k' k).
    + destruct (String.eqb_spec k0 k) as [->|Hne'].
      * destruct (String.eqb_spec k' k) as [->|]; [done|done].
      * exact IH.
Qed.

Lemma keys_mapPush k x m :
  map fst (mapPush k x m)
  = if bool_decide (k ∈ map fst m) then map fst m else map fst m ++ [k].
Proof.
  induction m as [|[k0 b0] m IH]; cbn; [done|].
  destruct (String.eqb_spec k0 k) as [->|Hne]; cbn.
  - rewrite bool_decide_eq_true_2; [done | left].
  - rewrite IH. destruct (bool_decide (k ∈ map fst m)) eqn:E.
    + apply bool_decide_eq_true in E.
      rewrite bool_decide_eq_true_2; [done | by right].
    + apply bool_decide_eq_false in E.
      rewrite bool_decide_eq_false_2; [done|].
      intros H. apply elem_of_cons in H as [->|]; done.
Qed.

(** No key occurs twice in an index. *)
Lemma buildInvoiceMap_keys_NoDup invoices source :
  NoDup (map fst (buildInvoiceMap invoices source)).
Proof.
  unfold buildInvoiceMap.
  apply (fold_left_invariant (fun m : InvoiceMap => NoDup (map fst m))).
  - apply NoDup_nil_2.
  - intros m inv _ Hm. destruct (negb _); [done|].
    rewrite keys_mapPush. case_bool_decide as E; [done|].
    apply NoDup_app. split; [done|]. split; [|apply NoDup_singleton].
    intros k Hk Hk'. apply list_elem_of_singleton in Hk' as ->. done.
Qed.

Lemma buildInvoiceMap_snoc invoices inv source :
  buildInvoiceMap (invoices ++ [inv]) source
  = if negb (Js.truthyOpt (invoiceNo inv)) then buildInvoiceMap invoices source
    else mapPush (keyOf inv) (withSource inv source)
           (buildInvoiceMap invoices source).
Proof. unfold buildInvoiceMap. by rewrite fold_left_app. Qed.

(** The bucket under a key, and the keys. *)
Lemma buildInvoiceMap_bucket (invoices : list Invoice) (source key : string) :
  mapGet key (buildInvoiceMap invoices source)
  = match bucketOf key invoices source with
    | [] => None
    | b => Some b
    end
  /\ NoDup (map fst (buildInvoiceMap invoices source)).
Proof.
  split; [|apply buildInvoiceMap_keys_NoDup].
  induction invoices as [|inv l IH] using rev_ind; [done|].
  rewrite buildInvoiceMap_snoc. unfold bucketOf in *.
  rewrite List.filter_app, map_app. cbn [List.filter].
  destruct (Js.truthyOpt (invoiceNo inv)); cbn [negb andb].
  - rewrite mapGet_mapPush, IH.
    destruct (String.eqb (keyOf inv) key); cbn [map].
    + destruct (map _ (List.filter _ l)); cbn; [done|done].
    + rewrite app_nil_r. done.
  - cbn [map]. rewrite app_nil_r. exact IH.
Qed.

(** X6 -- lookup after build.  Looking a key up in the index gives the
    invoices with an identifier that normalize to it, in input order
    and tagged with the source; it gives nothing exactly when there is
    no such invoice.  No key occurs twice. *)
Theorem buildInvoiceMap_lookup (invoices : list Invoice) (source key : string) :
  mapGet key (buildInvoiceMap invoices source)
  = match bucketOf key invoices source with
    | [] => None
    | b => Some b
    end
  /\ NoDup (map fst (buildInvoiceMap invoices source)).
Proof. apply buildInvoiceMap_bucket. Qed.

End LookupFacts.

(* ===================================================================== *)
(** ** What [reconcileData] accounts for *)
(* ===================================================================== *)

Module AccountFacts.
Import Reconciliation ReconciliationMore IndexFacts LoopFacts ReconcileFacts.
Import LookupFacts.

(** A property of the result that the three ways of recording an
    outcome keep is kept by an iteration of the first loop. *)
Lemma matchSales_preserves (Q : Result -> Prop) t gm st e :
  (forall d r, Q r -> Q (pushDuplicate d r)) ->
  (forall c r, Q r -> Q (classify c r)) ->
  (forall m r, Q r -> Q (pushMissingSales m r)) ->
  Q (fst st) -> Q (fst (matchSales t gm st e)).
Proof.
  intros Hd Hc Hm. destruct st as [r P], e as [k [|s b]]; [done|].
  cbn [fst]. intros Hr. unfold matchSales.
  set (r0 := if (1 <? length (s :: b))%nat then _ else r).
  assert (H0 : Q r0)
    by (subst r0; destruct (1 <? length (s :: b))%nat; [by apply Hd | done]).
  clearbody r0.
  assert (Hfuzzy :
    Q (fst match findFuzzyMatch s gm P with
           | Some fuzzyMatch =>
               (classify
                  (markFuzzy (compareInvoices s (fm_invoice fuzzyMatch) t)
                     (fm_confidence fuzzyMatch)) r0,
                {[ normalizeInvoiceNo (invoiceNo (fm_invoice fuzzyMatch)) ]}
                  ∪ P)
           | None => (pushMissingSales (missingInGSTR1 s) r0, P)
           end)).
  { destruct (findFuzzyMatch s gm P); cbn [fst]; [by apply Hc | by apply Hm]. }
  destruct (mapGet k gm) as [[|g gs]|]; [done| |done].
  cbn [fst]. apply Hc.
  destruct (1 <? length (g :: gs))%nat; [by apply Hd | done].
Qed.

Lemma reportUnprocessed_preserves (Q : Result -> Prop) P gm r :
  (forall m r, Q r -> Q (pushMissingGSTR1 m r)) ->
  Q r -> Q (fold_left (reportUnprocessed P) gm r).
Proof.
  intros Hm. revert r. induction gm as [|[k b] gm IH]; intros r Hr; cbn;
    [done|].
  apply IH. destruct (decide (k ∈ P)); [done|].
  clear IH. revert r Hr. induction b as [|x b IHb]; intros r Hr; cbn; [done|].
  by apply IHb, Hm.
Qed.

(** A property of the result that every way of recording keeps, and
    that does not look at the rounded total, holds of the result of
    [reconcileData] when it holds of the empty result. *)
Lemma reconcileData_preserves (Q : Result -> Prop) L R o :
  (forall d r, Q r -> Q (pushDuplicate d r)) ->
  (forall c r, Q r -> Q (classify c r)) ->
  (forall m r, Q r -> Q (pushMissingSales m r)) ->
  (forall m r, Q r -> Q (pushMissingGSTR1 m r)) ->
  (forall r, Q r -> Q (roundSummary r)) ->
  Q (emptyResult L R) -> Q (reconcileData L R o).
Proof.
  intros Hd Hc Hm Hg Hr H0. unfold reconcileData.
  assert (H1 : Q (fst (matchAll L R (effectiveTolerance o)))).
  { unfold matchAll.
    apply (fold_left_invariant (fun st => Q (fst st))); [done|].
    intros st e _. by apply matchSales_preserves. }
  destruct (matchAll L R (effectiveTolerance o)) as [r P]. cbn [fst] in H1.
  by apply Hr, reportUnprocessed_preserves.
Qed.

Lemma discrepancyTotal_snoc cs c :
  discrepancyTotal (cs ++ [c])
  = discrepancyTotal cs + Z.abs (totalDifference c).
Proof.
  unfold discrepancyTotal. induction cs as [|c' cs IH]; cbn; [lia|].
  rewrite IH. lia.
Qed.

Lemma discrepancyTotal_nonneg cs : 0 <= discrepancyTotal cs.
Proof.
  unfold discrepancyTotal. induction cs as [|c cs IH]; cbn; lia.
Qed.

(** The summary of a result, from its lists. *)
Lemma summary_agrees (L R : list Invoice) (o : Options) :
  let r := reconcileData L R o in
  countersAgree r
  /\ totalSalesInvoices (summary r) = length L
  /\ totalGSTR1Invoices (summary r) = length R
  /\ totalDiscrepancyAmount (summary r) = discrepancyTotal (mismatched r)
  /\ 0 <= totalDiscrepancyAmount (summary r).
Proof.
  cbv zeta.
  enough (H : countersAgree (reconcileData L R o)
              /\ totalSalesInvoices (summary (reconcileData L R o)) = length L
              /\ totalGSTR1Invoices (summary (reconcileData L R o)) = length R
              /\ totalDiscrepancyAmount (summary (reconcileData L R o))
                 = discrepancyTotal (mismatched (reconcileData L R o))).
  { destruct H as (H1 & H2 & H3 & H4). repeat (split; [done|]).
    rewrite H4. apply discrepancyTotal_nonneg. }
  apply (reconcileData_preserves
           (fun r => countersAgree r
                     /\ totalSalesInvoices (summary r) = length L
                     /\ totalGSTR1Invoices (summary r) = length R
                     /\ totalDiscrepancyAmount (summary r)
                        = discrepancyTotal (mismatched r))).
  - intros d r H. exact H.
  - intros c r ((H1 & H2 & H3 & H4) & H5 & H6 & H7).
    unfold classify, countersAgree.
    destruct (isEmpty (discrepancies c)); cbn -[discrepancyTotal];
      rewrite ?length_app, ?discrepancyTotal_snoc; cbn -[discrepancyTotal];
      repeat split; lia.
  - intros m r ((H1 & H2 & H3 & H4) & H5 & H6 & H7).
    unfold countersAgree. cbn -[discrepancyTotal]. rewrite ?length_app.
    cbn -[discrepancyTotal]. repeat split; lia.
  - intros m r ((H1 & H2 & H3 & H4) & H5 & H6 & H7).
    unfold countersAgree. cbn -[discrepancyTotal]. rewrite ?length_app.
    cbn -[discrepancyTotal]. repeat split; lia.
  - intros r ((H1 & H2 & H3 & H4) & H5 & H6 & H7).
    unfold countersAgree. cbn -[discrepancyTotal]. rewrite round2_paise.
    repeat split; lia.
  - unfold countersAgree. cbn. repeat split.
Qed.

(** X7 -- the summary follows the lists, for all inputs.  The four
    counters are the lengths of the four lists, the two totals are the
    lengths of the inputs, and the total discrepancy amount is the sum of
    the absolute total differences of the mismatched pairs, hence never
    negative. *)
Theorem summary_follows_lists (L R : list Invoice) (o : Options) :
  let r := reconcileData L R o in
  countersAgree r
  /\ totalSalesInvoices (summary r) = length L
  /\ totalGSTR1Invoices (summary r) = length R
  /\ totalDiscrepancyAmount (summary r) = discrepancyTotal (mismatched r)
  /\ 0 <= totalDiscrepancyAmount (summary r).
Proof. apply summary_agrees. Qed.

(** What one iteration of the first loop does, for a sales invoice [s]:
    it records a pair whose sales invoice is [s], or reports [s] as
    missing, on a result that differs from the former one by duplicates
    only. *)
Lemma matchSales_elim (Φ : MatchState -> Prop) t gm r P k s b :
  (forall r0 c P', sameOutcomes r r0 -> salesInvoice c = s ->
                   Φ (classify c r0, P')) ->
  (forall r0, sameOutcomes r r0 ->
              mapGet k gm = None \/ mapGet k gm = Some [] ->
              findFuzzyMatch s gm P = None ->
              Φ (pushMissingSales (missingInGSTR1 s) r0, P)) ->
  Φ (matchSales t gm (r, P) (k, s :: b)).
Proof.
  intros Hc Hm. unfold matchSales.
  set (r0 := if (1 <? length (s :: b))%nat then _ else r).
  assert (H0 : sameOutcomes r r0)
    by (subst r0; by destruct (1 <? length (s :: b))%nat).
  clearbody r0.
  assert (Hfuzzy :
    mapGet k gm = None \/ mapGet k gm = Some [] ->
    Φ match findFuzzyMatch s gm P with
      | Some fuzzyMatch =>
          (classify
             (markFuzzy (compareInvoices s (fm_invoice fuzzyMatch) t)
                (fm_confidence fuzzyMatch)) r0,
           {[ normalizeInvoiceNo (invoiceNo (fm_invoice fuzzyMatch)) ]} ∪ P)
      | None => (pushMissingSales (missingInGSTR1 s) r0, P)
      end).
  { intros Hget. destruct (findFuzzyMatch s gm P) eqn:E;
      [by apply Hc | by apply Hm]. }
  destruct (mapGet k gm) as [[|g gs]|]; [by apply Hfuzzy; right| |
                                          by apply Hfuzzy; left].
  apply Hc; [|done].
  destruct H0 as (? & ? & ? & ? & ?).
  destruct (1 <? length (g :: gs))%nat; by repeat split.
Qed.

Lemma outcomeInvoices_classify c r r0 :
  sameOutcomes r r0 ->
  outcomeInvoices (classify c r0) ≡ₚ salesInvoice c :: outcomeInvoices r.
Proof.
  intros (_ & Hm & Hmm & Hms & _).
  unfold outcomeInvoices, classify, pairs.
  destruct (isEmpty (discrepancies c)); cbn; rewrite Hm, Hmm, Hms;
    rewrite !map_app; cbn; solve_Permutation.
Qed.

Lemma outcomeInvoices_missing s r r0 :
  sameOutcomes r r0 ->
  outcomeInvoices (pushMissingSales (missingInGSTR1 s) r0)
  ≡ₚ s :: outcomeInvoices r.
Proof.
  intros (_ & Hm & Hmm & Hms & _).
  unfold outcomeInvoices, pairs. cbn. rewrite Hm, Hmm, Hms, !map_app. cbn.
  solve_Permutation.
Qed.

Lemma firsts_cons k s b sm : firsts ((k, s :: b) :: sm) = s :: firsts sm.
Proof. reflexivity. Qed.

Lemma matchAll_outcomeInvoices L R t :
  outcomeInvoices (fst (matchAll L R t))
  ≡ₚ firsts (buildInvoiceMap L "sales").
Proof.
  unfold matchAll.
  pose proof (buildInvoiceMap_wellFormed L "sales") as Hsm.
  set (gm := buildInvoiceMap R "gstr1"). clearbody gm.
  enough (G : forall sm st,
             (forall k b, (k, b) ∈ sm -> b <> []) ->
             outcomeInvoices (fst (fold_left (matchSales t gm) sm st))
             ≡ₚ outcomeInvoices (fst st) ++ firsts sm).
  { rewrite G; [done|]. intros k b H. by destruct (Hsm k b H). }
  induction sm as [|[k b] sm IH]; intros st Hne; cbn [fold_left].
  - unfold firsts. cbn. by rewrite app_nil_r.
  - rewrite IH by (intros k' b' H; apply (Hne k' b'); by right).
    destruct b as [|s b]; [exfalso; apply (Hne k []); [left | done]|].
    rewrite firsts_cons. destruct st as [r P].
    apply (matchSales_elim
             (fun st' => outcomeInvoices (fst st') ++ firsts sm
                         ≡ₚ outcomeInvoices (fst (r, P)) ++ s :: firsts sm)).
    + intros r0 c P' H0 <-. cbn [fst].
      rewrite (outcomeInvoices_classify c r r0 H0). cbn.
      solve_Permutation.
    + intros r0 H0 _ _. cbn [fst].
      rewrite (outcomeInvoices_missing s r r0 H0). cbn.
      solve_Permutation.
Qed.

Lemma firsts_keys sm :
  (forall k b, (k, b) ∈ sm -> b <> [] /\ forall x, x ∈ b -> keyOf x = k /\ hasIdentifier x) ->
  map keyOf (firsts sm) = map fst sm.
Proof.
  induction sm as [|[k b] sm IH]; intros H; [done|].
  destruct b as [|s b]; [by destruct (H k []) as [? _]; [left|]|].
  rewrite firsts_cons. cbn.
  destruct (H k (s :: b)) as [_ Hb]; [left|].
  destruct (Hb s) as [-> _]; [left|].
  f_equal. apply IH. intros k' b' Hin. apply H. by right.
Qed.

(** X8 -- every sales key has exactly one outcome.  The sales invoices
    in the pairs and in [missingSalesInGSTR1] are, up to order, the
    first invoices of the buckets of the sales index: one per
    normalized key, none twice. *)
Theorem one_outcome_per_sales_key (L R : list Invoice) (o : Options) :
  let r := reconcileData L R o in
  outcomeInvoices r ≡ₚ firsts (buildInvoiceMap L "sales")
  /\ outcomeKeys r ≡ₚ map fst (buildInvoiceMap L "sales")
  /\ NoDup (outcomeKeys r)
  /\ (length (matched r) + length (mismatched r)
      + length (missingSalesInGSTR1 r)
      = length (buildInvoiceMap L "sales"))%nat.
Proof.
  cbv zeta.
  pose proof (matchAll_outcomeInvoices L R (effectiveTolerance o)) as H.
  pose proof (reconcileData_extends L R o) as Hext.
  assert (E : outcomeInvoices (reconcileData L R o)
              = outcomeInvoices (fst (matchAll L R (effectiveTolerance o)))).
  { unfold outcomeInvoices. rewrite (pairs_extends _ _ _ Hext).
    destruct Hext as (_ & _ & -> & _). done. }
  rewrite <- E in H.
  assert (K : outcomeKeys (reconcileData L R o)
              = map keyOf (outcomeInvoices (reconcileData L R o))).
  { unfold outcomeKeys, outcomeInvoices. by rewrite map_app, !map_map. }
  assert (HK : outcomeKeys (reconcileData L R o)
               ≡ₚ map fst (buildInvoiceMap L "sales")).
  { rewrite K, <- (firsts_keys _ (buildInvoiceMap_wellFormed L "sales")).
    by apply Permutation_map. }
  split; [done|]. split; [done|]. split.
  - rewrite HK. apply buildInvoiceMap_keys_NoDup.
  - apply Permutation_length in HK. rewrite length_map in HK.
    rewrite <- HK. unfold outcomeKeys, pairs.
    rewrite !length_app, !length_map, length_app. lia.
Qed.

(** X9 -- one side empty.  Against no GSTR-1 data every first sales
    invoice of a key is reported as missing, in index order, and nothing
    else is reported; with no sales data every GSTR-1 invoice that has
    an identifier is reported as missing, bucket by bucket. *)
Theorem one_side_empty (D : list Invoice) (o : Options) :
  (let r := reconcileData D [] o in
   matched r = [] /\ mismatched r = [] /\ missingGSTR1InSales r = []
   /\ map m_invoice (missingSalesInGSTR1 r)
      = firsts (buildInvoiceMap D "sales"))
  /\ (let r := reconcileData [] D o in
      matched r = [] /\ mismatched r = [] /\ missingSalesInGSTR1 r = []
      /\ map m_invoice (missingGSTR1InSales r)
         = flat_map snd (buildInvoiceMap D "gstr1")).
Proof.
  split; cbv zeta.
  - pose proof (reconcileData_extends D [] o) as Hext.
    pose proof (buildInvoiceMap_wellFormed D "sales") as Hsm.
    destruct Hext as (-> & -> & -> & -> & _).
    change (buildInvoiceMap [] "gstr1") with (@nil (string * list Invoice)).
    unfold unprocessed, matchAll. cbn [flat_map map].
    change (buildInvoiceMap [] "gstr1") with (@nil (string * list Invoice)).
    enough (G : forall sm st,
               (forall k b, (k, b) ∈ sm -> b <> []) ->
               let st' := fold_left (matchSales (effectiveTolerance o) []) sm st in
               matched (fst st') = matched (fst st)
               /\ mismatched (fst st') = mismatched (fst st)
               /\ missingGSTR1InSales (fst st') = missingGSTR1InSales (fst st)
               /\ map m_invoice (missingSalesInGSTR1 (fst st'))
                  = map m_invoice (missingSalesInGSTR1 (fst st)) ++ firsts sm).
    { destruct (G (buildInvoiceMap D "sales") (emptyResult D [], ∅))
        as (-> & -> & -> & ->).
      - intros k b H. by destruct (Hsm k b H).
      - cbn. done. }
    induction sm as [|[k b] sm IH]; intros st Hne; cbn [fold_left].
    + cbn. by rewrite app_nil_r.
    + destruct b as [|s b]; [exfalso; apply (Hne k []); [left | done]|].
      cbv zeta in IH.
      destruct (IH (matchSales (effectiveTolerance o) [] st (k, s :: b)))
        as (-> & -> & -> & ->);
        [intros k' b' H; apply (Hne k' b'); by right|].
      destruct st as [r P]. rewrite firsts_cons. cbn [fst].
      unfold matchSales. cbn [mapGet].
      change (findFuzzyMatch s [] P) with (@None FuzzyMatch).
      cbn [fst]. destruct (1 <? length (s :: b))%nat; cbn;
        rewrite map_app; cbn; rewrite <- app_assoc; done.
  - pose proof (reconcileData_extends [] D o) as Hext.
    destruct Hext as (-> & -> & -> & -> & _).
    unfold matchAll. cbn [buildInvoiceMap fold_left fst snd emptyResult
                          matched mismatched missingSalesInGSTR1
                          missingGSTR1InSales app].
    repeat (split; [done|]).
    assert (E1 : forall l, map m_invoice (map missingInSales l) = l)
      by (induction l as [|x l IHl]; cbn; congruence).
    rewrite E1. unfold unprocessed.
    induction (buildInvoiceMap D "gstr1") as [|[k b] gm IH]; cbn; [done|].
    rewrite IH.
    destruct (decide (k ∈ ∅)) as [H|_]; [by apply elem_of_empty in H | done].
Qed.

End AccountFacts.

(* ===================================================================== *)
(** ** What the buckets of the result mean *)
(* ===================================================================== *)

Module MeaningFacts.
Import Reconciliation ReconciliationMore IndexFacts LoopFacts ReconcileFacts.
Import LookupFacts AccountFacts.

Lemma compareField_nil t key label a b :
  compareField t key label a b = [] <-> Z.abs (a - b) <= t.
Proof.
  unfold compareField. destruct (Z.ltb_spec t (Z.abs (a - b))).
  - split; [discriminate | lia].
  - done.
Qed.

Lemma conflict_nil {A} (a b : string) (d : A) :
  (if Js.truthy a && Js.truthy b && negb (String.eqb a b) then [d] else [])
  = [] <-> a = "" \/ b = "" \/ a = b.
Proof.
  destruct (String.eqb_spec a b) as [->|Hne].
  - rewrite andb_false_r. tauto.
  - destruct a, b; cbn; split; try done; try tauto.
    intros [|[|]]; done.
Qed.

(** A pair has no discrepancy exactly when its invoices agree. *)
Lemma compareInvoices_nil s g t :
  discrepancies (compareInvoices s g t) = [] <-> agree t s g.
Proof.
  unfold compareInvoices, agree. cbn [discrepancies].
  rewrite !app_nil, !compareField_nil, !conflict_nil. tauto.
Qed.

(** The list a pair is reported in. *)
Lemma matched_agree (L R : list Invoice) (o : Options)
    (c : Comparison) :
  c ∈ pairs (reconcileData L R o) ->
  (c ∈ matched (reconcileData L R o)
   <-> agree (effectiveTolerance o) (salesInvoice c) (gstr1Invoice c))
  /\ (c ∈ mismatched (reconcileData L R o)
      <-> ~ agree (effectiveTolerance o) (salesInvoice c) (gstr1Invoice c)).
Proof.
  intros Hc.
  pose proof (matchAll_invariant L R (effectiveTolerance o)) as Hinv.
  pose proof (reconcileData_extends L R o) as Hext.
  rewrite (pairs_extends _ _ _ Hext) in Hc.
  destruct Hext as (-> & -> & _).
  destruct (matchAll L R (effectiveTolerance o)) as [r1 P].
  unfold loopInvariant in Hinv. cbn [fst snd] in *.
  destruct Hinv as (_ & _ & Hp & Hm & Hmm & _).
  destruct (Hp c Hc) as ([Hd _] & _).
  rewrite <- compareInvoices_nil, <- Hd.
  unfold pairs in Hc. apply elem_of_app in Hc as [Hc|Hc].
  - pose proof (Hm c Hc) as E. split; [done|].
    split; [apply Hmm | intros E'; by destruct E'].
  - pose proof (Hmm c Hc) as E. split; [|done].
    split; [apply Hm | intros E'; by destruct E].
Qed.



(** X11 -- a tolerance below zero.  With a negative [toleranceAmount]
    no two amounts are ever close enough: nothing is reported as
    matched, every pair is mismatched. *)
Theorem negative_tolerance_matches_nothing (L R : list Invoice) (o : Options) :
  effectiveTolerance o < 0 ->
  matched (reconcileData L R o) = []
  /\ n_matched (summary (reconcileData L R o)) = 0%nat
  /\ pairs (reconcileData L R o) = mismatched (reconcileData L R o).
Proof.
  intros Ht.
  assert (Hm : matched (reconcileData L R o) = []).
  { destruct (matched (reconcileData L R o)) as [|c cs] eqn:E; [done|].
    exfalso.
    assert (Hc : c ∈ matched (reconcileData L R o)) by (rewrite E; left).
    assert (Hp : c ∈ pairs (reconcileData L R o))
      by (unfold pairs; apply elem_of_app; by left).
    apply (matched_agree L R o c Hp) in Hc.
    destruct Hc as (H1 & _). lia. }
  destruct (summary_agrees L R o) as ((H1 & _) & _).
  rewrite H1. unfold pairs. by rewrite Hm.
Qed.

Lemma negative_tolerance_matches_nothing_witness :
  effectiveTolerance MoreExamples.negativeTolerance < 0
  /\ matched (reconcileData Examples.nearLeft Examples.nearLeft
                MoreExamples.negativeTolerance) = [].
Proof.
  assert (H : effectiveTolerance MoreExamples.negativeTolerance < 0)
    by reflexivity.
  split; [exact H|].
  exact (proj1 (negative_tolerance_matches_nothing Examples.nearLeft
                  Examples.nearLeft MoreExamples.negativeTolerance H)).
Defined.


(** Under a tolerance that is not negative an invoice agrees with
    itself, whatever source it is tagged with. *)
Lemma compareInvoices_self s a b t :
  0 <= t ->
  discrepancies (compareInvoices (withSource s a) (withSource s b) t) = [].
Proof.
  intros Ht. apply compareInvoices_nil. unfold agree. cbn.
  rewrite !Z.sub_diag. cbn. repeat split; try lia; auto.
Qed.


Lemma mapGet_of_elem m k b :
  NoDup (map fst m) -> (k, b) ∈ m -> mapGet k m = Some b.
Proof.
  induction m as [|[k0 b0] m IH]; cbn; intros Hnd Hin.
  - by apply elem_of_nil in Hin.
  - apply NoDup_cons in Hnd as [Hk0 Hnd].
    apply elem_of_cons in Hin as [[= -> ->]|Hin].
    + by rewrite String.eqb_refl.
    + destruct (String.eqb_spec k0 k) as [->|_]; [|by apply IH].
      exfalso. apply Hk0. apply list_elem_of_In, in_map_iff.
      exists (k, b). split; [done | by apply list_elem_of_In].
Qed.

(** The bucket under a key of the index, spelled out. *)
Lemma bucket_is_bucketOf L src k b :
  (k, b) ∈ buildInvoiceMap L src -> b = bucketOf k L src /\ b <> [].
Proof.
  intros Hin.
  destruct (buildInvoiceMap_bucket L src k) as [Hget Hnd].
  rewrite (mapGet_of_elem _ _ _ Hnd Hin) in Hget.
  destruct (bucketOf k L src) as [|x l]; [done|].
  injection Hget as ->. done.
Qed.

Lemma elem_of_bucketOf k L src x :
  x ∈ bucketOf k L src <->
  exists inv, inv ∈ L /\ hasIdentifier inv /\ keyOf inv = k
              /\ x = withSource inv src.
Proof.
  unfold bucketOf. rewrite list_elem_of_In, in_map_iff.
  split.
  - intros (inv & <- & Hin). apply filter_In in Hin as [Hin Hc].
    apply andb_true_iff in Hc as [Hid Hk]. apply String.eqb_eq in Hk.
    exists inv. by rewrite list_elem_of_In.
  - intros (inv & Hin & Hid & Hk & ->). exists inv. split; [done|].
    apply filter_In. split; [by apply list_elem_of_In|].
    apply andb_true_iff. split; [done | by apply String.eqb_eq].
Qed.

(** Every invoice with an identifier is in the bucket of its key. *)
Lemma indexed_under_key L src inv :
  inv ∈ L -> hasIdentifier inv ->
  exists b, (keyOf inv, b) ∈ buildInvoiceMap L src /\ withSource inv src ∈ b.
Proof.
  intros Hin Hid.
  assert (Hx : withSource inv src ∈ bucketOf (keyOf inv) L src)
    by (apply elem_of_bucketOf; by exists inv).
  destruct (buildInvoiceMap_bucket L src (keyOf inv)) as [Hget _].
  destruct (bucketOf (keyOf inv) L src) as [|x l] eqn:E;
    [by apply elem_of_nil in Hx|].
  exists (x :: l). split; [by apply mapGet_Some | done].
Qed.

Lemma elem_of_unprocessed_iff P gm x :
  x ∈ unprocessed P gm <-> exists k b, (k, b) ∈ gm /\ (k ∉ P) /\ x ∈ b.
Proof.
  unfold unprocessed. rewrite list_elem_of_In, in_flat_map. split.
  - intros ([k b] & Hin & Hx). cbn [fst snd] in Hx.
    destruct (decide (k ∈ P)); [done|].
    exists k, b. by rewrite !list_elem_of_In.
  - intros (k & b & Hin & Hk & Hx). exists (k, b).
    split; [by apply list_elem_of_In|]. cbn [fst snd].
    destruct (decide (k ∈ P)); [done | by apply list_elem_of_In].
Qed.

Lemma m_invoice_missingInSales l : map m_invoice (map missingInSales l) = l.
Proof. induction l as [|x l IH]; cbn; congruence. Qed.

(** X13 -- which filed invoices are reported as missing.  A GSTR-1
    invoice with an identifier is reported in [missingGSTR1InSales]
    exactly when no pair of the result holds a filed invoice of its
    normalized key. *)
Theorem missing_iff_key_unpaired (L R : list Invoice) (o : Options)
    (inv : Invoice) :
  inv ∈ R -> hasIdentifier inv ->
  withSource inv "gstr1"
    ∈ map m_invoice (missingGSTR1InSales (reconcileData L R o))
  <-> ~ exists c, c ∈ pairs (reconcileData L R o)
                  /\ keyOf (gstr1Invoice c) = keyOf inv.
Proof.
  intros Hin Hid.
  pose proof (matchAll_invariant L R (effectiveTolerance o)) as Hinv.
  pose proof (reconcileData_extends L R o) as Hext.
  pose proof (buildInvoiceMap_wellFormed R "gstr1") as Hgm.
  rewrite (pairs_extends _ _ _ Hext).
  destruct Hext as (_ & _ & _ & -> & _).
  destruct (matchAll L R (effectiveTolerance o)) as [r1 P].
  unfold loopInvariant in Hinv. cbn [fst snd] in *.
  destruct Hinv as (_ & -> & _ & _ & _ & _ & HP).
  cbn [app]. rewrite m_invoice_missingInSales, elem_of_unprocessed_iff.
  rewrite <- HP. split.
  - intros (k & b & Hb & Hk & Hx).
    destruct (Hgm k b Hb) as [_ Hkey]. destruct (Hkey _ Hx) as [<- _]. done.
  - intros Hk. destruct (indexed_under_key R "gstr1" inv Hin Hid)
      as (b & Hb & Hx).
    by exists (keyOf inv), b.
Qed.

Lemma missing_iff_key_unpaired_witness :
  MoreExamples.stray ∈ Examples.amountRight ++ [MoreExamples.stray]
  /\ hasIdentifier MoreExamples.stray
  /\ (withSource MoreExamples.stray "gstr1"
        ∈ map m_invoice
            (missingGSTR1InSales
               (reconcileData Examples.amountLeft
                  (Examples.amountRight ++ [MoreExamples.stray])
                  Examples.defaults))
      <-> ~ exists c,
            c ∈ pairs (reconcileData Examples.amountLeft
                         (Examples.amountRight ++ [MoreExamples.stray])
                         Examples.defaults)
            /\ keyOf (gstr1Invoice c) = keyOf MoreExamples.stray).
Proof.
  assert (H1 : MoreExamples.stray
                 ∈ Examples.amountRight ++ [MoreExamples.stray])
    by (vm_compute; right; left).
  assert (H2 : hasIdentifier MoreExamples.stray) by reflexivity.
  split; [exact H1|]. split; [exact H2|].
  exact (missing_iff_key_unpaired Examples.amountLeft
           (Examples.amountRight ++ [MoreExamples.stray])
           Examples.defaults MoreExamples.stray H1 H2).
Defined.

(** An entry of the sales index has an exact counterpart in the GSTR-1
    index built from the same data, and the two first invoices agree. *)
Lemma self_counterpart L t k s b :
  0 <= t -> (k, s :: b) ∈ buildInvoiceMap L "sales" ->
  exists g gs, mapGet k (buildInvoiceMap L "gstr1") = Some (g :: gs)
               /\ discrepancies (compareInvoices s g t) = [].
Proof.
  intros Ht Hin. destruct (bucket_is_bucketOf _ _ _ _ Hin) as [E _].
  destruct (buildInvoiceMap_bucket L "gstr1" k) as [Hget _].
  unfold bucketOf in *.
  destruct (List.filter _ L) as [|inv F]; [done|].
  cbn [map] in *. injection E as -> _.
  eexists _, _. split; [exact Hget|]. by apply compareInvoices_self.
Qed.

Lemma same_keys L a b k :
  k ∈ map fst (buildInvoiceMap L a) -> k ∈ map fst (buildInvoiceMap L b).
Proof.
  intros Hk. apply list_elem_of_In, in_map_iff in Hk as ([k' bk] & <- & Hin).
  apply list_elem_of_In in Hin. cbn.
  destruct (bucket_is_bucketOf _ _ _ _ Hin) as [E Hne].
  destruct (buildInvoiceMap_bucket L b k') as [Hget _].
  unfold bucketOf in *.
  destruct (List.filter _ L) as [|inv F]; [by subst|].
  cbn [map] in Hget. apply mapGet_Some in Hget.
  apply list_elem_of_In, in_map_iff. eexists (_, _).
  split; [|apply list_elem_of_In; exact Hget]. done.
Qed.

(** X14 -- a register reconciled against itself.  Under a tolerance that
    is not negative, reconciling any data against the same data matches
    one pair per normalized key, exactly, and reports nothing as
    mismatched or missing (rows without identifier and repeated numbers
    included: they are in no bucket). *)
Theorem self_reconciliation (L : list Invoice) (o : Options) :
  0 <= effectiveTolerance o ->
  mismatched (reconcileData L L o) = []
  /\ missingSalesInGSTR1 (reconcileData L L o) = []
  /\ missingGSTR1InSales (reconcileData L L o) = []
  /\ length (matched (reconcileData L L o))
     = length (buildInvoiceMap L "sales")
  /\ (forall c, c ∈ matched (reconcileData L L o) -> matchType c = "exact").
Proof.
  intros Ht.
  pose proof (matchAll_invariant L L (effectiveTolerance o)) as Hinv.
  pose proof (matchAll_outcomeInvoices L L (effectiveTolerance o)) as Hout.
  pose proof (reconcileData_extends L L o) as Hext.
  pose proof (buildInvoiceMap_wellFormed L "sales") as Hsm.
  pose proof (buildInvoiceMap_wellFormed L "gstr1") as Hgm.
  assert (HQ : let st := matchAll L L (effectiveTolerance o) in
               mismatched (fst st) = [] /\ missingSalesInGSTR1 (fst st) = []
               /\ forall c, c ∈ matched (fst st) -> matchType c = "exact").
  { unfold matchAll.
    apply (fold_left_invariant
             (fun st : MatchState =>
                mismatched (fst st) = [] /\ missingSalesInGSTR1 (fst st) = []
                /\ forall c, c ∈ matched (fst st) -> matchType c = "exact")).
    - cbn. repeat split. intros c Hc. by apply elem_of_nil in Hc.
    - intros [r P] [k [|s b]] Hin (H1 & H2 & H3); [done|].
      destruct (self_counterpart L _ k s b Ht Hin) as (g & gs & Hget & Hd).
      unfold matchSales. rewrite Hget. cbn [fst]. unfold classify.
      rewrite Hd. cbn [isEmpty].
      destruct (1 <? length (s :: b))%nat, (1 <? length (g :: gs))%nat;
        cbn; (split; [done|]; split; [done|]);
        intros c Hc; apply elem_of_snoc in Hc as [Hc| ->];
        try (by apply H3); done. }
  cbv zeta in HQ.
  destruct Hext as (Em & Emm & Ems & Emg & _).
  destruct (matchAll L L (effectiveTolerance o)) as [r1 P].
  unfold loopInvariant in Hinv. cbn [fst snd] in *.
  destruct HQ as (Q1 & Q2 & Q3).
  destruct Hinv as (_ & Hmiss & Hp & _ & _ & _ & HP).
  rewrite Em, Emm, Ems, Emg, Q1, Q2, Hmiss. cbn [app].
  unfold outcomeInvoices, pairs in Hout. rewrite Q1, Q2 in Hout.
  cbn [map] in Hout. rewrite !app_nil_r in Hout.
  split; [done|]. split; [done|]. split; [|split; [|done]].
  - assert (E : unprocessed P (buildInvoiceMap L "gstr1") = []); [|by rewrite E].
    destruct (unprocessed P (buildInvoiceMap L "gstr1")) as [|x l] eqn:E;
      [done|]. exfalso.
    assert (Hx : x ∈ unprocessed P (buildInvoiceMap L "gstr1"))
      by (rewrite E; left).
    apply elem_of_unprocessed_iff in Hx as (k & b & Hb & Hk & _).
    apply Hk, HP.
    assert (Hks : k ∈ map fst (buildInvoiceMap L "sales")).
    { apply (same_keys L "gstr1" "sales"), list_elem_of_In, in_map_iff.
      exists (k, b). split; [done | by apply list_elem_of_In]. }
    rewrite <- (firsts_keys _ Hsm), <- Hout, map_map in Hks.
    apply list_elem_of_In, in_map_iff in Hks as (c & Hkc & Hc).
    apply list_elem_of_In in Hc. exists c. unfold pairs. rewrite Q1, app_nil_r. split; [done|].
    assert (Hcp : c ∈ pairs r1)
      by (unfold pairs; rewrite Q1, app_nil_r; done).
    destruct (Hp c Hcp) as ((_ & [(Hf & _)|(_ & _ & <-)]) & _); [|done].
    rewrite (Q3 c Hc) in Hf. discriminate.
  - apply Permutation_length in Hout. rewrite length_map in Hout.
    rewrite Hout. rewrite <- (length_map keyOf), (firsts_keys _ Hsm).
    by rewrite length_map.
Qed.

Lemma self_reconciliation_witness :
  0 <= effectiveTolerance Examples.defaults
  /\ mismatched (reconcileData MoreExamples.register MoreExamples.register
                   Examples.defaults) = [].
Proof.
  assert (H : 0 <= effectiveTolerance Examples.defaults)
    by (vm_compute; discriminate).
  split; [exact H|].
  exact (proj1 (self_reconciliation MoreExamples.register
                  Examples.defaults H)).
Defined.

End MeaningFacts.

(* ===================================================================== *)
(** ** The choice of [findFuzzyMatch] *)
(* ===================================================================== *)

Module FuzzyFacts.
Import Reconciliation ReconciliationMore LoopFacts.

Lemma fuzzy_fold_candidates s P m init :
  fold_left (fuzzyStep s (keyOf s) P) m init
  = fold_left (candidateStep s) (candidatesOf m P) init.
Proof.
  revert init. induction m as [|[k b] m IH]; intros init; [done|].
  unfold candidatesOf in *. cbn [fold_left flat_map fst snd].
  rewrite fold_left_app, IH. f_equal.
  unfold fuzzyStep. destruct (decide (k ∈ P)); [done|].
  destruct b as [|g b]; done.
Qed.

Lemma candidateStep_chosen s l best c :
  chosen s l best -> chosen s (l ++ [c]) (candidateStep s best c).
Proof.
  destruct best as [[fm|] bc]; unfold chosen, candidateStep; cbn [fst snd].
  - intros (-> & H7 & pre & k & post & -> & Hs & Hpre & Hpost).
    destruct (negb _ && _) eqn:Hc; cbn [fst snd fm_confidence fm_invoice].
    + apply andb_true_iff in Hc as [Hlt Hge].
      apply negb_true_iff in Hlt.
      assert (Hlt' : (fm_confidence fm < score s c)%Q).
      { apply Qnot_le_lt. intros Hle. apply Qle_bool_iff in Hle. congruence. }
      apply Qle_bool_iff in Hge.
      split; [done|]. split; [done|].
      exists (pre ++ (k, fm_invoice fm) :: post), (fst c), [].
      destruct c as [kc gc]. cbn [fst snd].
      split; [done|]. split; [done|]. split.
      * intros c' Hc'. apply elem_of_app in Hc' as [Hc'|Hc'].
        -- eapply Qlt_trans; [by apply Hpre | done].
        -- apply elem_of_cons in Hc' as [->|Hc'].
           ++ by rewrite <- Hs.
           ++ eapply Qle_lt_trans; [by apply Hpost | done].
      * intros c' Hc'. by apply elem_of_nil in Hc'.
    + split; [done|]. split; [done|].
      exists pre, k, (post ++ [c]). split; [by rewrite <- app_assoc|].
      split; [done|]. split; [done|].
      intros c' Hc'. apply elem_of_snoc in Hc' as [Hc'| ->]; [by apply Hpost|].
      apply andb_false_iff in Hc as [Hc|Hc].
      * apply negb_false_iff in Hc. by apply Qle_bool_iff.
      * apply Qlt_le_weak. eapply Qlt_le_trans; [|exact H7].
        apply Qnot_le_lt. intros Hle. apply Qle_bool_iff in Hle. congruence.
  - intros [-> Hall].
    destruct (negb _ && _) eqn:Hc; cbn [fst snd fm_confidence fm_invoice].
    + apply andb_true_iff in Hc as [_ Hge]. apply Qle_bool_iff in Hge.
      split; [done|]. split; [done|].
      exists l, (fst c), []. destruct c as [kc gc]. cbn [fst snd].
      split; [done|]. split; [done|]. split.
      * intros c' Hc'. eapply Qlt_le_trans; [by apply Hall | done].
      * intros c' Hc'. by apply elem_of_nil in Hc'.
    + split; [done|]. intros c' Hc'.
      apply elem_of_snoc in Hc' as [Hc'| ->]; [by apply Hall|].
      apply andb_false_iff in Hc as [Hc|Hc].
      * apply negb_false_iff, Qle_bool_iff in Hc.
        eapply Qle_lt_trans; [exact Hc | done].
      * apply Qnot_le_lt. intros Hle. apply Qle_bool_iff in Hle. congruence.
Qed.

Lemma fold_candidates_chosen s l :
  chosen s l (fold_left (candidateStep s) l (None, 0%Q)).
Proof.
  induction l as [|c l IH] using rev_ind.
  - cbn. split; [done|]. intros c Hc. by apply elem_of_nil in Hc.
  - rewrite fold_left_app. cbn [fold_left]. by apply candidateStep_chosen.
Qed.

(** X15 -- the choice of the fuzzy search.  Among the first invoices of
    the unprocessed buckets, [findFuzzyMatch] returns one with the
    highest score, the earliest in the order of the index among those,
    and its score is at least 0.7; it returns nothing only when every
    candidate scores below 0.7. *)
Theorem findFuzzyMatch_best (s : Invoice) (m : InvoiceMap)
    (P : gset string) :
  match findFuzzyMatch s m P with
  | None => forall c, c ∈ candidatesOf m P -> (score s c < 7 # 10)%Q
  | Some fm =>
      (7 # 10 <= fm_confidence fm)%Q
      /\ exists pre k post,
           candidatesOf m P = pre ++ (k, fm_invoice fm) :: post
           /\ fm_confidence fm = score s (k, fm_invoice fm)
           /\ (forall c, c ∈ pre -> (score s c < fm_confidence fm)%Q)
           /\ (forall c, c ∈ post -> (score s c <= fm_confidence fm)%Q)
  end.
Proof.
  unfold findFuzzyMatch.
  change (normalizeInvoiceNo (invoiceNo s)) with (keyOf s).
  rewrite fuzzy_fold_candidates.
  pose proof (fold_candidates_chosen s (candidatesOf m P)) as H.
  unfold chosen in H.
  destruct (fst (fold_left (candidateStep s) (candidatesOf m P) (None, 0%Q)))
    as [fm|].
  - destruct H as (_ & H7 & H). done.
  - by destruct H.
Qed.

End FuzzyFacts.

(* ===================================================================== *)
(** ** The accounts of the purchase-side reconciliation *)
(* ===================================================================== *)

Module PurchaseAccounts.
Import Gstr2Reconciliation Gstr2More PurchaseFacts.

Lemma elem_of_use (i b : nat) (used : gset nat) :
  b ∈ {[ i ]} ∪ used <-> b = i \/ b ∈ used.
Proof. by rewrite elem_of_union, elem_of_singleton. Qed.

Lemma unusedFrom_above used i b rows :
  (i < b)%nat -> unusedFrom ({[ i ]} ∪ used) b rows = unusedFrom used b rows.
Proof.
  revert b. induction rows as [|g rows IH]; intros b Hb; cbn; [done|].
  rewrite IH by lia.
  destruct (decide (b ∈ used)) as [Hu|Hu],
           (decide (b ∈ {[i]} ∪ used)) as [Hu'|Hu']; try done.
  - exfalso. apply Hu', elem_of_use. by right.
  - apply elem_of_use in Hu' as [->|Hu']; [lia | done].
Qed.

(** Using one more row removes that row from the unused ones. *)
Lemma unusedFrom_use used b rows i g :
  i ∉ used -> (b <= i)%nat -> rows !! (i - b)%nat = Some g ->
  unusedFrom used b rows ≡ₚ g :: unusedFrom ({[ i ]} ∪ used) b rows.
Proof.
  revert b. induction rows as [|g0 rows IH]; intros b Hi Hb Hg; [done|].
  cbn. destruct (decide (b = i)) as [->|Hne].
  - rewrite Nat.sub_diag in Hg. injection Hg as ->.
    rewrite unusedFrom_above by lia.
    destruct (decide (i ∈ used)); [done|].
    destruct (decide (i ∈ {[i]} ∪ used)) as [|Hu']; [done|].
    exfalso. apply Hu', elem_of_use. by left.
  - replace (i - b)%nat with (S (i - S b)) in Hg by lia. cbn in Hg.
    specialize (IH (S b) Hi ltac:(lia) Hg).
    destruct (decide (b ∈ used)) as [Hu|Hu],
             (decide (b ∈ {[i]} ∪ used)) as [Hu'|Hu'].
    + done.
    + exfalso. apply Hu', elem_of_use. by right.
    + apply elem_of_use in Hu' as [->|Hu']; done.
    + rewrite IH. apply perm_swap.
Qed.

Lemma unusedFrom_empty b rows : unusedFrom ∅ b rows = rows.
Proof.
  revert b. induction rows as [|g rows IH]; intros b; cbn; [done|].
  by rewrite IH.
Qed.

Lemma buildFrom_located data i rows m :
  located data m ->
  (forall j g, rows !! j = Some g -> data !! (i + j)%nat = Some g) ->
  located data (buildFrom i rows m).
Proof.
  revert i m. induction rows as [|g rows IH]; intros i m Hm Hrows; cbn;
    [done|].
  apply IH.
  - intros k l c Hl Hc.
    destruct (decide (gstr2Key g = k)) as [<-|Hne].
    + rewrite lookup_insert_eq in Hl. injection Hl as <-.
      apply elem_of_app in Hc as [Hc|Hc].
      * destruct (m !! gstr2Key g) as [l0|] eqn:E; cbn in Hc.
        -- by apply (Hm (gstr2Key g) l0).
        -- by apply elem_of_nil in Hc.
      * apply list_elem_of_singleton in Hc as ->. cbn.
        specialize (Hrows 0%nat g eq_refl). by rewrite Nat.add_0_r in Hrows.
    + rewrite lookup_insert_ne in Hl by done. by apply (Hm k l).
  - intros j g' Hj. replace (S i + j)%nat with (i + S j)%nat by lia.
    by apply Hrows.
Qed.

Lemma firstUnused_unused used l c :
  firstUnused used l = Some c -> _index c ∉ used.
Proof.
  unfold firstUnused. intros H. apply find_some in H as [_ H].
  apply negb_true_iff in H. by apply bool_decide_eq_false in H.
Qed.

Lemma pairs_pushMatched p r : pairs (pushMatched p r) ≡ₚ p :: pairs r.
Proof. unfold pairs. cbn. solve_Permutation. Qed.

Lemma pairs_pushMismatched p r : pairs (pushMismatched p r) ≡ₚ p :: pairs r.
Proof. unfold pairs. cbn. solve_Permutation. Qed.

(** Recording a pair with a row not used so far keeps the accounts. *)
Lemma accounted_use pd data l r used r' p q :
  accounted pd data l (r, used) ->
  usedIndex q ∉ used -> data !! usedIndex q = Some (gstr2Row q) ->
  purchase q = p ->
  pairs r' ≡ₚ q :: pairs r ->
  missingInGSTR2 r' = missingInGSTR2 r ->
  countersAgree r' -> missingInPurchase r' = [] ->
  totalPurchaseInvoices (summary r') = totalPurchaseInvoices (summary r) ->
  totalGSTR2Invoices (summary r') = totalGSTR2Invoices (summary r) ->
  accounted pd data (l ++ [p]) (r', {[ usedIndex q ]} ∪ used).
Proof.
  unfold accounted. cbn [fst snd].
  intros (H1 & H2 & H3 & H4 & H5 & _ & _ & H8 & H9)
         Hq Hrow <- Hp Hm Hc Hmp Ht1 Ht2.
  rewrite Hm, Ht1, Ht2.
  split; [rewrite Hp, fmap_cons, <- H1; solve_Permutation|].
  split.
  { rewrite Hp, fmap_cons. apply NoDup_cons. by rewrite <- H3. }
  split.
  { intros i. rewrite Hp, fmap_cons, elem_of_use, elem_of_cons, H3. done. }
  split.
  { intros p' Hp'. rewrite Hp in Hp'.
    apply elem_of_cons in Hp' as [->|Hp']; [done|]. by apply H4. }
  split; [|done].
  etrans; [|exact H5]. rewrite Hp, fmap_cons.
  rewrite (unusedFrom_use used 0 data (usedIndex q) (gstr2Row q));
    [solve_Permutation | done | lia |].
  by rewrite Nat.sub_0_r.
Qed.

Lemma countersAgree_pushMatched p r :
  countersAgree r -> countersAgree (pushMatched p r).
Proof.
  intros (H1 & H2 & H3 & H4). unfold countersAgree. cbn.
  rewrite length_app. cbn. lia.
Qed.

Lemma countersAgree_pushMismatched p r :
  countersAgree r -> countersAgree (pushMismatched p r).
Proof.
  intros (H1 & H2 & H3 & H4). unfold countersAgree. cbn.
  rewrite length_app. cbn. lia.
Qed.

(** One iteration of the purchase loop keeps the accounts. *)
Lemma matchPurchase_accounted pd data l st p t m :
  located data m -> accounted pd data l st ->
  accounted pd data (l ++ [p]) (matchPurchase t data m st p).
Proof.
  intros Hm Hacc. destruct st as [r used]. unfold matchPurchase.
  pose proof Hacc as (H1 & H2 & H3 & H4 & H5 & H6 & H7 & H8 & H9).
  cbn [fst snd] in *.
  destruct (firstUnused used (default [] (m !! purchaseKey p)))
    as [c|] eqn:Hfirst.
  - pose proof (firstUnused_unused _ _ _ Hfirst) as Hu.
    apply firstUnused_Some in Hfirst.
    assert (Hrow : data !! _index c = Some (row c)).
    { destruct (m !! purchaseKey p) as [l0|] eqn:E; cbn in Hfirst.
      - by apply (Hm (purchaseKey p) l0).
      - by apply elem_of_nil in Hfirst. }
    destruct (isEmpty (comparePurchaseInvoice p (row c) t)).
    + apply (accounted_use pd data l r used _ p (mkPair p c [])); try done.
      * apply pairs_pushMatched.
      * by apply countersAgree_pushMatched.
    + apply (accounted_use pd data l r used _ p
               (mkPair p c (comparePurchaseInvoice p (row c) t))); try done.
      * apply pairs_pushMismatched.
      * by apply countersAgree_pushMismatched.
  - destruct (findFuzzyMatch2A p data used) as [fm|] eqn:Hf.
    + apply findFuzzyMatch2A_accepted in Hf as (Hu & Hrow & _).
      apply (accounted_use pd data l r used _ p
               (mkPair p fm (comparePurchaseInvoice p (row fm) t
                             ++ [invoiceNoRemark p (row fm)]))); try done.
      * apply pairs_pushMismatched.
      * by apply countersAgree_pushMismatched.
    + unfold accounted. cbn [fst snd].
      change (pairs (pushMissingInGSTR2 p r)) with (pairs r).
      split; [cbn; rewrite <- H1; solve_Permutation|].
      repeat (split; [done|]). split; [|done].
      destruct H6 as (C1 & C2 & C3 & C4). unfold countersAgree. cbn.
      rewrite length_app. cbn. lia.
Qed.

(** The last loop appends the unused rows and counts them. *)
Lemma reportUnused_spec used i rows r :
  let r' := reportUnused used i rows r in
  matched r' = matched r /\ mismatched r' = mismatched r
  /\ missingInGSTR2 r' = missingInGSTR2 r
  /\ missingInPurchase r' = missingInPurchase r ++ unusedFrom used i rows
  /\ n_matched (summary r') = n_matched (summary r)
  /\ n_mismatched (summary r') = n_mismatched (summary r)
  /\ n_missingInGSTR2 (summary r') = n_missingInGSTR2 (summary r)
  /\ n_missingInPurchase (summary r')
     = (n_missingInPurchase (summary r) + length (unusedFrom used i rows))%nat
  /\ totalPurchaseInvoices (summary r') = totalPurchaseInvoices (summary r)
  /\ totalGSTR2Invoices (summary r') = totalGSTR2Invoices (summary r).
Proof.
  revert i r. induction rows as [|g rows IH]; intros i r; cbn.
  - rewrite app_nil_r. repeat split; lia.
  - destruct (IH (S i) (if decide (i ∈ used) then r
                        else pushMissingInPurchase g r))
      as (-> & -> & -> & -> & -> & -> & -> & -> & -> & ->).
    destruct (decide (i ∈ used)); [done|]. cbn.
    rewrite <- app_assoc. cbn. repeat split; lia.
Qed.

(** The accounts of a whole run. *)
Lemma reconcilePurchase_accounts purchaseData gstr2Data o :
  let r := reconcilePurchaseWith2A2B purchaseData gstr2Data o in
  (purchase <$> pairs r) ++ missingInGSTR2 r ≡ₚ purchaseData
  /\ NoDup (usedIndex <$> pairs r)
  /\ (forall p, p ∈ pairs r -> gstr2Data !! usedIndex p = Some (gstr2Row p))
  /\ (gstr2Row <$> pairs r) ++ missingInPurchase r ≡ₚ gstr2Data
  /\ countersAgree r
  /\ totalPurchaseInvoices (summary r) = length purchaseData
  /\ totalGSTR2Invoices (summary r) = length gstr2Data.
Proof.
  unfold reconcilePurchaseWith2A2B.
  set (t := effectiveTolerance o).
  set (m := buildFrom 0 gstr2Data ∅).
  assert (Hm : located gstr2Data m).
  { apply buildFrom_located; [|done].
    intros k l c H. by rewrite lookup_empty in H. }
  set (init := (_, ∅) : MatchState).
  assert (H : forall l, accounted purchaseData gstr2Data l
                (fold_left (matchPurchase t gstr2Data m) l init)).
  { induction l as [|p l IH] using rev_ind.
    - unfold accounted. cbn. rewrite unusedFrom_empty.
      split; [done|]. split; [constructor|].
      split; [intros i; split; intros Hi;
              [by apply elem_of_empty in Hi | by apply elem_of_nil in Hi]|].
      split; [intros p Hp; by apply elem_of_nil in Hp|].
      done.
    - rewrite fold_left_app. cbn [fold_left].
      by apply matchPurchase_accounted. }
  specialize (H purchaseData).
  destruct (fold_left _ purchaseData init) as [r used].
  destruct H as (H1 & H2 & H3 & H4 & H5 & H6 & H7 & H8 & H9).
  cbn [fst snd] in *. cbv zeta.
  destruct (reportUnused_spec used 0 gstr2Data r)
    as (Em & Emm & Emg & Emp & C1 & C2 & C3 & C4 & T1 & T2).
  cbv zeta in *.
  assert (Ep : pairs (reportUnused used 0 gstr2Data r) = pairs r)
    by (unfold pairs; by rewrite Em, Emm).
  rewrite Ep, Emg, Emp, H7, T1, T2. cbn [app].
  repeat (split; [done|]). split; [|done].
  destruct H6 as (D1 & D2 & D3 & D4). unfold countersAgree.
  rewrite H7 in D4. cbn in D4.
  rewrite Em, Emm, Emg, Emp, C1, C2, C3, C4, H7. cbn. lia.
Qed.

(** X16 -- every purchase is reported once.  For all inputs, the
    purchases of the pairs and the purchases reported as missing in
    GSTR-2A/2B are, together, the purchase register: no row is dropped,
    none is reported twice (rows without invoice number included). *)
Theorem purchase_rows_reported_once (purchaseData gstr2Data : list Row)
    (o : Options) :
  let r := reconcilePurchaseWith2A2B purchaseData gstr2Data o in
  (purchase <$> pairs r) ++ missingInGSTR2 r ≡ₚ purchaseData.
Proof. apply reconcilePurchase_accounts. Qed.

(** X17 -- every GSTR-2A/2B row is consumed at most once.  For all
    inputs, the pairs hold rows of the data at pairwise different
    indices, and these rows together with the rows reported as missing
    in the purchase register are the GSTR-2A/2B data. *)
Theorem gstr2_rows_consumed_once (purchaseData gstr2Data : list Row)
    (o : Options) :
  let r := reconcilePurchaseWith2A2B purchaseData gstr2Data o in
  NoDup (usedIndex <$> pairs r)
  /\ (forall p, p ∈ pairs r -> gstr2Data !! usedIndex p = Some (gstr2Row p))
  /\ (gstr2Row <$> pairs r) ++ missingInPurchase r ≡ₚ gstr2Data.
Proof.
  pose proof (reconcilePurchase_accounts purchaseData gstr2Data o) as H.
  cbv zeta in *. tauto.
Qed.

(** X18 -- the purchase-side summary adds up.  Each counter is the
    length of its list, and the counters add up to the two totals, which
    are the sizes of the inputs. *)
Theorem purchase_summary_adds_up (purchaseData gstr2Data : list Row)
    (o : Options) :
  let r := reconcilePurchaseWith2A2B purchaseData gstr2Data o in
  let s := summary r in
  countersAgree r
  /\ totalPurchaseInvoices s = length purchaseData
  /\ totalGSTR2Invoices s = length gstr2Data
  /\ (n_matched s + n_mismatched s + n_missingInGSTR2 s
      = totalPurchaseInvoices s)%nat
  /\ (n_matched s + n_mismatched s + n_missingInPurchase s
      = totalGSTR2Invoices s)%nat.
Proof.
  pose proof (reconcilePurchase_accounts purchaseData gstr2Data o) as H.
  cbv zeta in *.
  destruct H as (H1 & _ & _ & H4 & (C1 & C2 & C3 & C4) & T1 & T2).
  apply Permutation_length in H1, H4.
  rewrite length_app, length_fmap in H1, H4. unfold pairs in H1, H4.
  rewrite length_app in H1, H4.
  repeat split; try done; lia.
Qed.

End PurchaseAccounts.

(* ===================================================================== *)
(** ** Tables 3.1, 4 and 5 and the whole return *)
(* ===================================================================== *)

Module TableFacts.
Import Gstr3bTables.












(** What the loop of [computeExemptInward] adds up. *)
Lemma fold_addExempt rows init :
  let r := fold_left addExempt rows init in
  nilRated (interState r) + nilRated (intraState r)
  = nilRated (interState init) + nilRated (intraState init)
    + total taxableAmount (untaxed rows)
  /\ exempt (interState r) = exempt (interState init)
  /\ e_nonGST (interState r) = e_nonGST (interState init)
  /\ exempt (intraState r) = exempt (intraState init)
  /\ e_nonGST (intraState r) = e_nonGST (intraState init)
  /\ (Forall nonnegTax rows ->
      nilRated (interState r) = nilRated (interState init)).
Proof.
  cbv zeta. revert init. induction rows as [|inv rows IH]; intros init.
  - cbn. repeat split; lia.
  - cbn [fold_left].
    remember (addExempt init inv) as st eqn:Est.
    destruct (IH st) as (-> & -> & -> & -> & -> & IH6).
    assert (Hst : (Forall nonnegTax (inv :: rows) ->
                   nilRated (interState st) = nilRated (interState init))
                  /\ nilRated (interState st) + nilRated (intraState st)
                     = nilRated (interState init) + nilRated (intraState init)
                       + total taxableAmount (untaxed [inv])
                  /\ exempt (interState st) = exempt (interState init)
                  /\ e_nonGST (interState st) = e_nonGST (interState init)
                  /\ exempt (intraState st) = exempt (intraState init)
                  /\ e_nonGST (intraState st) = e_nonGST (intraState init)).
    { subst st. unfold addExempt, untaxed. cbn [List.filter].
      destruct ((_ =? 0) && _) eqn:E; [|cbn; repeat split; lia].
      apply andb_true_iff in E as [E0 _]. apply Z.eqb_eq in E0.
      destruct (0 <? igst inv) eqn:Ei; cbn; (repeat split; try lia).
      intros Hrows. apply Forall_cons in Hrows as [(Hc & Hs & Hi) Hrows].
      apply Z.ltb_lt in Ei. lia. }
    destruct Hst as (S0 & S1 & -> & -> & -> & ->).
    assert (Hu : total taxableAmount (untaxed (inv :: rows))
                 = total taxableAmount (untaxed [inv])
                   + total taxableAmount (untaxed rows)).
    { unfold untaxed. cbn [List.filter].
      destruct ((_ =? 0) && _); unfold total; cbn [fold_right]; lia. }
    rewrite Hu. repeat split; try lia.
    intros Hrows. pose proof (S0 Hrows) as S0'.
    apply Forall_cons in Hrows as [_ Hrows]. rewrite (IH6 Hrows). done.
Qed.

(** X22 -- Table 5 never reports an inter-state supply.  When no inward
    row has a negative GST amount, the inter-state line stays empty and
    the intra-state nil-rated figure is the taxable amount of all rows
    without tax, whatever their origin; the exempt and non-GST figures
    are never set. *)
Theorem exempt_inward_is_intra_state (rows : list Supply) :
  Forall nonnegTax rows ->
  let t := computeExemptInward rows in
  interState t = mkExempt 0 0 0
  /\ intraState t = mkExempt 0 (total taxableAmount (untaxed rows)) 0.
Proof.
  intros Hrows. cbv zeta. unfold computeExemptInward.
  set (init := mkExemptInward _ _).
  destruct (fold_addExempt rows init) as (H1 & H2 & H3 & H4 & H5 & H6).
  specialize (H6 Hrows). cbv zeta in *.
  destruct (fold_left addExempt rows init) as [[a b c] [a' b' c']].
  cbn in *. subst a c a' c' b. split; [done|]. f_equal. lia.
Qed.

Lemma exempt_inward_is_intra_state_witness :
  Forall nonnegTax TableExamples.inward
  /\ interState (computeExemptInward TableExamples.inward) = mkExempt 0 0 0.
Proof.
  assert (H : Forall nonnegTax TableExamples.inward)
    by (repeat constructor; vm_compute; discriminate).
  split; [exact H|].
  exact (proj1 (exempt_inward_is_intra_state TableExamples.inward H)).
Defined.









End TableFacts.

(* ===================================================================== *)
(** ** The check character of a GSTIN *)
(* ===================================================================== *)

Module ChecksumFacts.
Import Validation.

Lemma indexFrom_Some c l i x :
  indexFrom c l i = Some x -> (i <= x)%nat /\ l !! (x - i)%nat = Some c.
Proof.
  revert i. induction l as [|y l IH]; intros i; cbn; [done|].
  destruct (Ascii.eqb_spec y c) as [->|_].
  - intros [= <-]. by rewrite Nat.sub_diag.
  - intros H. apply IH in H as [Hle H]. split; [lia|].
    replace (x - i)%nat with (S (x - S i)) by lia. done.
Qed.

Lemma indexOf_Some c x : indexOf c = Some x -> chars !! x = Some c.
Proof.
  intros H. apply indexFrom_Some in H as [_ H].
  by rewrite Nat.sub_0_r in H.
Qed.

Lemma indexOf_lt c x : indexOf c = Some x -> (x < 36)%nat.
Proof.
  intros H. apply indexOf_Some in H. by apply lookup_lt_Some in H.
Qed.

Lemma indexOf_inj c c' x : indexOf c = Some x -> indexOf c' = Some x -> c = c'.
Proof.
  intros H H'. apply indexOf_Some in H, H'. congruence.
Qed.

(** Each index adds between 0 and 35, and different indices add
    different amounts at the same position. *)
Lemma contribution_range i x :
  (x < 36)%nat -> 0 <= contribution i x < 36.
Proof.
  intros Hx. unfold contribution.
  destruct (Nat.even i); Z.div_mod_to_equations; lia.
Qed.

Lemma contribution_inj i x y :
  (x < 36)%nat -> (y < 36)%nat -> contribution i x = contribution i y ->
  x = y.
Proof.
  intros Hx Hy. unfold contribution.
  destruct (Nat.even i); Z.div_mod_to_equations; lia.
Qed.

Lemma sumFrom_shift n i g s d :
  sumFrom n i g (s + d) = (fun t => t + d) <$> sumFrom n i g s.
Proof.
  revert i s. induction n as [|n IH]; intros i s; cbn [sumFrom]; [done|].
  destruct (g !! i) as [c|]; [|done].
  destruct (indexOf c) as [x|]; [|done].
  replace (s + d + contribution i x) with (s + contribution i x + d) by lia.
  apply IH.
Qed.

(** A character outside the positions the loop reads does not matter. *)
Lemma sumFrom_insert_out n i g s j c :
  (j < i \/ i + n <= j)%nat ->
  sumFrom n i (<[j:=c]> g) s = sumFrom n i g s.
Proof.
  revert i s. induction n as [|n IH]; intros i s Hj; cbn [sumFrom]; [done|].
  rewrite list_lookup_insert_ne by lia.
  destruct (g !! i) as [c0|]; [|done].
  destruct (indexOf c0) as [x|]; [|done].
  apply IH. lia.
Qed.

(** Replacing a character the loop reads replaces its contribution. *)
Lemma sumFrom_insert_in n i g s j c c0 x0 :
  (i <= j < i + n)%nat -> g !! j = Some c0 -> indexOf c0 = Some x0 ->
  sumFrom n i (<[j:=c]> g) s
  = match indexOf c with
    | None => None
    | Some x =>
        (fun t => t - contribution j x0 + contribution j x)
          <$> sumFrom n i g s
    end.
Proof.
  revert i s. induction n as [|n IH]; intros i s Hj Hc0 Hx0; [lia|].
  cbn [sumFrom]. destruct (decide (i = j)) as [->|Hne].
  - rewrite list_lookup_insert_eq by (by eapply lookup_lt_Some).
    rewrite Hc0, Hx0. destruct (indexOf c) as [x|]; [|done].
    rewrite sumFrom_insert_out by lia.
    replace (s + contribution j x)
      with (s + contribution j x0 + (contribution j x - contribution j x0))
      by lia.
    rewrite sumFrom_shift.
    destruct (sumFrom n (S j) g (s + contribution j x0)); cbn; [|done].
    f_equal. lia.
  - rewrite list_lookup_insert_ne by done.
    destruct (g !! i) as [ci|]; [|by destruct (indexOf c)].
    destruct (indexOf ci) as [xi|]; [|by destruct (indexOf c)].
    apply IH; [lia | done | done].
Qed.

(** When the loop completes, every character it read is in the
    alphabet. *)
Lemma sumFrom_Some_lookup n i g s t j :
  sumFrom n i g s = Some t -> (i <= j < i + n)%nat ->
  exists c x, g !! j = Some c /\ indexOf c = Some x.
Proof.
  revert i s. induction n as [|n IH]; intros i s H Hj; [lia|].
  cbn [sumFrom] in H. destruct (g !! i) as [c|] eqn:Ec; [|done].
  destruct (indexOf c) as [x|] eqn:Ex; [|done].
  destruct (decide (i = j)) as [<-|Hne]; [by exists c, x|].
  apply (IH _ _ H). lia.
Qed.

Lemma chars_lookup_inj (a b : nat) c :
  chars !! a = Some c -> chars !! b = Some c -> a = b.
Proof.
  apply NoDup_lookup.
  apply (bool_decide_unpack (NoDup chars)). by vm_compute.
Qed.

(** X24 -- the check character detects any single wrong character.  If a
    GSTIN passes [validateGSTINChecksum], replacing any one of its 15
    characters by a different character makes it fail. *)
Theorem checksum_detects_substitution (gstin : list ascii) (i : nat)
    (c : ascii) :
  validateGSTINChecksum gstin = true -> (i < 15)%nat ->
  gstin !! i <> Some c ->
  validateGSTINChecksum (<[i:=c]> gstin) = false.
Proof.
  unfold validateGSTINChecksum. intros Hv Hi Hc.
  destruct (sumFrom 14 0 gstin 0) as [sum|] eqn:Hsum; [|done].
  destruct (gstin !! 14%nat) as [c14|] eqn:H14; [|done].
  destruct (chars !! Z.to_nat ((36 - sum mod 36) mod 36)) as [e|] eqn:He;
    [|done].
  apply Ascii.eqb_eq in Hv. subst e.
  destruct (decide (i = 14)%nat) as [->|Hne].
  - rewrite sumFrom_insert_out, Hsum by lia.
    rewrite list_lookup_insert_eq by (by eapply lookup_lt_Some).
    rewrite He. apply Ascii.eqb_neq. congruence.
  - destruct (sumFrom_Some_lookup _ _ _ _ _ i Hsum ltac:(lia))
      as (c0 & x0 & Hc0 & Hx0).
    rewrite (sumFrom_insert_in 14 0 gstin 0 i c c0 x0) by (done || lia).
    destruct (indexOf c) as [x|] eqn:Hx; [|done].
    rewrite Hsum. cbn [fmap option_fmap option_map].
    rewrite list_lookup_insert_ne, H14 by done.
    match goal with
    | |- context [chars !! ?k] => destruct (chars !! k) as [e|] eqn:He'
    end; [|done].
    apply Ascii.eqb_neq. intros <-.
    pose proof (chars_lookup_inj _ _ _ He He') as Hcp.
    assert (Hxx : x <> x0).
    { intros ->. apply Hc. rewrite Hc0. f_equal.
      by apply (indexOf_inj _ _ x0). }
    pose proof (contribution_range i x0 (indexOf_lt _ _ Hx0)).
    pose proof (contribution_range i x (indexOf_lt _ _ Hx)).
    apply Hxx, (contribution_inj i); [by eapply indexOf_lt..|].
    apply Z2Nat.inj in Hcp; [|apply Z.mod_pos_bound; lia..].
    revert Hcp. generalize (contribution i x) (contribution i x0) H H0.
    clear. intros a b Ha Hb. Z.div_mod_to_equations. lia.
Qed.

Lemma checksum_detects_substitution_witness :
  validateGSTINChecksum sampleGSTIN = true
  /\ (3 < 15)%nat
  /\ sampleGSTIN !! 3%nat <> Some "B"%char
  /\ validateGSTINChecksum (<[3%nat:="B"%char]> sampleGSTIN) = false.
Proof.
  assert (H1 : validateGSTINChecksum sampleGSTIN = true) by reflexivity.
  assert (H2 : (3 < 15)%nat) by lia.
  assert (H3 : sampleGSTIN !! 3%nat <> Some "B"%char)
    by (vm_compute; discriminate).
  split; [exact H1|]. split; [exact H2|]. split; [exact H3|].
  exact (checksum_detects_substitution sampleGSTIN 3 "B"%char H1 H2 H3).
Defined.

End ChecksumFacts.

(* ===================================================================== *)
(** ** Dates *)
(* ===================================================================== *)

Module DateFacts.
Import Reconciliation ReconciliationMore Text Dates KeyFacts.

#[local] Arguments Js.isDigit : simpl never.
#[local] Arguments Js.isWhitespace : simpl never.
#[local] Arguments isDateSep : simpl never.

Lemma isDateSep_not_digit c : isDateSep c = true -> Js.isDigit c = false.
Proof. by destruct c as [[] [] [] [] [] [] [] []]. Qed.

Lemma isDateSep_not_space c : isDateSep c = true -> Js.isWhitespace c = false.
Proof. by destruct c as [[] [] [] [] [] [] [] []]. Qed.

Lemma isDigit_not_space c : Js.isDigit c = true -> Js.isWhitespace c = false.
Proof. by destruct c as [[] [] [] [] [] [] [] []]. Qed.

Lemma append_nil_l s : String.append "" s = s.
Proof. reflexivity. Qed.

Lemma append_cons c s t :
  String.append (String c s) t = String c (String.append s t).
Proof. reflexivity. Qed.

Lemma append_nil_r s : String.append s "" = s.
Proof. induction s as [|c s IH]; [done|]. by rewrite append_cons, IH. Qed.

Lemma every_append p s t :
  every p (String.append s t) = every p s && every p t.
Proof.
  induction s as [|c s IH]; [done|].
  rewrite append_cons. cbn. by rewrite IH, andb_assoc.
Qed.

Lemma spanDigits_app g r :
  every Js.isDigit g = true -> startsWith Js.isDigit r = false ->
  spanDigits (String.append g r) = (g, r).
Proof.
  induction g as [|c g IH]; intros Hg Hr.
  - rewrite append_nil_l. destruct r as [|c r]; cbn in *; [done|].
    by rewrite Hr.
  - rewrite append_cons. cbn in *.
    apply andb_true_iff in Hg as [-> Hg]. by rewrite IH.
Qed.

Lemma spanDigits_all g :
  every Js.isDigit g = true -> spanDigits g = (g, EmptyString).
Proof.
  induction g as [|c g IH]; cbn; [done|]. intros Hg.
  apply andb_true_iff in Hg as [-> Hg]. by rewrite IH.
Qed.

(** What [spanDigits] returns. *)
Lemma spanDigits_spec s g r :
  spanDigits s = (g, r) ->
  every Js.isDigit g = true /\ s = String.append g r.
Proof.
  revert g r. induction s as [|c s IH]; cbn; intros g r.
  - by intros [= <- <-].
  - destruct (Js.isDigit c) eqn:E.
    + destruct (spanDigits s) as [g' r']. intros [= <- <-].
      destruct (IH g' r' eq_refl) as [Hg ->].
      rewrite append_cons. cbn. by rewrite E, Hg.
    + by intros [= <- <-].
Qed.

(** The groups of a string built from three groups of digits. *)
Lemma dateGroups_dateOf g1 a g2 b g3 :
  every Js.isDigit g1 = true -> every Js.isDigit g2 = true ->
  every Js.isDigit g3 = true -> isDateSep a = true -> isDateSep b = true ->
  dateGroups (dateOf g1 a g2 b g3) = Some (g1, g2, g3).
Proof.
  intros H1 H2 H3 Ha Hb. unfold dateGroups, dateOf.
  rewrite (spanDigits_app g1) by (done || by apply isDateSep_not_digit).
  rewrite Ha.
  rewrite (spanDigits_app g2) by (done || by apply isDateSep_not_digit).
  rewrite Hb, (spanDigits_all g3) by done. done.
Qed.

(** The groups [dateGroups] finds are digits, and the string is built
    from them. *)
Lemma dateGroups_Some s g1 g2 g3 :
  dateGroups s = Some (g1, g2, g3) ->
  exists a b, s = dateOf g1 a g2 b g3
              /\ isDateSep a = true /\ isDateSep b = true
              /\ every Js.isDigit g1 = true /\ every Js.isDigit g2 = true
              /\ every Js.isDigit g3 = true.
Proof.
  unfold dateGroups.
  destruct (spanDigits s) as [h1 r1] eqn:E1.
  destruct r1 as [|a r1]; [done|].
  destruct (isDateSep a) eqn:Ea; [|done].
  destruct (spanDigits r1) as [h2 r2] eqn:E2.
  destruct r2 as [|b r2]; [done|].
  destruct (isDateSep b) eqn:Eb; [|done].
  destruct (spanDigits r2) as [h3 r3] eqn:E3.
  destruct r3; [|done]. intros [= <- <- <-].
  apply spanDigits_spec in E1 as [H1 ->], E2 as [H2 ->], E3 as [H3 ->].
  exists a, b. unfold dateOf. by rewrite append_nil_r.
Qed.

(** A date built from digits and separators has no whitespace. *)
Lemma dateOf_trim g1 a g2 b g3 :
  every Js.isDigit g1 = true -> every Js.isDigit g2 = true ->
  every Js.isDigit g3 = true -> isDateSep a = true -> isDateSep b = true ->
  Js.trim (dateOf g1 a g2 b g3) = dateOf g1 a g2 b g3.
Proof.
  intros H1 H2 H3 Ha Hb. apply trim_id. unfold dateOf.
  assert (Hd : forall g, every Js.isDigit g = true ->
                 every (fun c => negb (Js.isWhitespace c)) g = true).
  { intros g. apply every_impl. intros c Hc.
    by rewrite (isDigit_not_space c Hc). }
  rewrite every_append. cbn. rewrite every_append. cbn.
  rewrite (Hd g1 H1), (Hd g2 H2), (Hd g3 H3).
  by rewrite (isDateSep_not_space a Ha), (isDateSep_not_space b Hb).
Qed.

Lemma dateOf_truthy g1 a g2 b g3 : Js.truthy (dateOf g1 a g2 b g3) = true.
Proof. unfold dateOf. destruct g1; [done|]. by rewrite append_cons. Qed.

Lemma four_not_oneOrTwo s : four s = true -> oneOrTwo s = false.
Proof.
  unfold four, oneOrTwo. intros H. apply Nat.eqb_eq in H. by rewrite H.
Qed.

Lemma oneOrTwo_not_four s : oneOrTwo s = true -> four s = false.
Proof.
  unfold four, oneOrTwo. intros H.
  destruct (String.length s) as [|[|[|[|[|n]]]]]; done.
Qed.

(** [normalizeDate] and [extractMonth] on a day-month-year date. *)
Lemma normalizeDate_dmy d m y a b :
  dayMonthYear d m y -> isDateSep a = true -> isDateSep b = true ->
  normalizeDate (dateOf d a m b y) = iso d m y
  /\ extractMonth (dateOf d a m b y)
     = Some (String.append y (String.append "-" (Js.padStart2 m))).
Proof.
  intros (Hd & Hm & Hy & Ld & Lm & Ly) Ha Hb.
  unfold normalizeDate, extractMonth.
  rewrite dateOf_truthy, dateOf_trim, dateGroups_dateOf by done.
  cbn [negb]. rewrite Ld, Lm, Ly. cbn [andb]. split; [|done].
  unfold iso, dateOf. done.
Qed.

(** [normalizeDate] and [extractMonth] on a year-month-day date. *)
Lemma normalizeDate_ymd d m y a b :
  dayMonthYear d m y -> isDateSep a = true -> isDateSep b = true ->
  normalizeDate (dateOf y a m b d) = iso d m y
  /\ extractMonth (dateOf y a m b d)
     = Some (String.append y (String.append "-" (Js.padStart2 m))).
Proof.
  intros (Hd & Hm & Hy & Ld & Lm & Ly) Ha Hb.
  unfold normalizeDate, extractMonth.
  rewrite dateOf_truthy, dateOf_trim, dateGroups_dateOf by done.
  cbn [negb]. rewrite (four_not_oneOrTwo y Ly), Ld, Lm, Ly. cbn [andb].
  split; [|done]. unfold iso, dateOf. done.
Qed.

(** X25 -- one date, whatever its format.  A day and a month of one or
    two digits and a year of four digits, written day first or year
    first with any of the separators [-], [/] and [.], normalize to the
    same [yyyy-mm-dd] string and have the same month [yyyy-mm]. *)
Theorem date_formats_agree (d m y : string) (a b a' b' : ascii) :
  dayMonthYear d m y ->
  isDateSep a = true -> isDateSep b = true ->
  isDateSep a' = true -> isDateSep b' = true ->
  normalizeDate (dateOf d a m b y) = iso d m y
  /\ normalizeDate (dateOf y a' m b' d) = iso d m y
  /\ extractMonth (dateOf d a m b y) = extractMonth (dateOf y a' m b' d).
Proof.
  intros H Ha Hb Ha' Hb'.
  destruct (normalizeDate_dmy d m y a b H Ha Hb) as [-> ->].
  destruct (normalizeDate_ymd d m y a' b' H Ha' Hb') as [-> ->]. done.
Qed.

Lemma date_formats_agree_witness :
  dayMonthYear "5" "01" "2024"
  /\ normalizeDate "5/01/2024" = "2024-01-05"
  /\ normalizeDate "2024.01-5" = "2024-01-05"
  /\ extractMonth "5/01/2024" = extractMonth "2024.01-5".
Proof.
  assert (H : dayMonthYear "5" "01" "2024") by (by vm_compute).
  split; [exact H|].
  exact (date_formats_agree "5" "01" "2024" "/" "/" "." "-" H
           eq_refl eq_refl eq_refl eq_refl).
Defined.

Lemma dropWhileEnd_idem p s :
  Js.dropWhileEnd p (Js.dropWhileEnd p s) = Js.dropWhileEnd p s.
Proof.
  induction s as [|c s IH]; cbn; [done|].
  destruct (Js.dropWhileEnd p s) as [|c2 r] eqn:E.
  - destruct (p c) eqn:Ec; cbn; [done|]. by rewrite Ec.
  - change (Js.dropWhileEnd p (String c (String c2 r)))
      with (match Js.dropWhileEnd p (String c2 r) with
            | EmptyString => if p c then EmptyString else String c EmptyString
            | String c' r' => String c (String c' r')
            end).
    by rewrite IH.
Qed.

Lemma startsWith_dropWhileEnd p s :
  startsWith p s = false -> startsWith p (Js.dropWhileEnd p s) = false.
Proof.
  destruct s as [|c s]; cbn; [done|]. intros Hc.
  destruct (Js.dropWhileEnd p s); [by rewrite Hc | done].
Qed.

Lemma trim_idem s : Js.trim (Js.trim s) = Js.trim s.
Proof.
  unfold Js.trim. rewrite (dropWhile_id _ (Js.dropWhileEnd _ _)).
  - apply dropWhileEnd_idem.
  - apply startsWith_dropWhileEnd, startsWith_dropWhile.
Qed.

Lemma padStart2_digits g :
  every Js.isDigit g = true -> oneOrTwo g = true ->
  every Js.isDigit (Js.padStart2 g) = true
  /\ oneOrTwo (Js.padStart2 g) = true
  /\ Js.padStart2 (Js.padStart2 g) = Js.padStart2 g.
Proof.
  destruct g as [|c1 [|c2 [|c3 g]]]; cbn; done.
Qed.

(** X26 -- normalizing a date twice changes nothing, for every
    string. *)
Theorem normalizeDate_idempotent (s : string) :
  normalizeDate (normalizeDate s) = normalizeDate s.
Proof.
  unfold normalizeDate at 2 3.
  destruct (Js.truthy s); cbn [negb]; [|done].
  destruct (dateGroups (Js.trim s)) as [[[g1 g2] g3]|] eqn:Eg.
  - destruct (dateGroups_Some _ _ _ _ Eg)
      as (a & b & Es & Ha & Hb & H1 & H2 & H3).
    destruct (oneOrTwo g1 && oneOrTwo g2 && four g3) eqn:C1.
    { apply andb_true_iff in C1 as [C1 L3].
      apply andb_true_iff in C1 as [L1 L2].
      destruct (padStart2_digits g1 H1 L1) as (D1 & P1 & Q1).
      destruct (padStart2_digits g2 H2 L2) as (D2 & P2 & Q2).
      destruct (normalizeDate_ymd (Js.padStart2 g1) (Js.padStart2 g2) g3
                  "-" "-") as [E _]; [done..|].
      unfold iso in E. rewrite Q1, Q2 in E. exact E. }
    destruct (four g1 && oneOrTwo g2 && oneOrTwo g3) eqn:C2.
    { apply andb_true_iff in C2 as [C2 L3].
      apply andb_true_iff in C2 as [L1 L2].
      destruct (padStart2_digits g3 H3 L3) as (D3 & P3 & Q3).
      destruct (padStart2_digits g2 H2 L2) as (D2 & P2 & Q2).
      destruct (normalizeDate_ymd (Js.padStart2 g3) (Js.padStart2 g2) g1
                  "-" "-") as [E _]; [done..|].
      unfold iso in E. rewrite Q3, Q2 in E. exact E. }
    unfold normalizeDate. destruct (Js.truthy (Js.trim s)) eqn:Et; cbn [negb].
    + by rewrite trim_idem, Eg, C1, C2.
    + by destruct (Js.trim s).
  - unfold normalizeDate. destruct (Js.truthy (Js.trim s)) eqn:Et; cbn [negb].
    + by rewrite trim_idem, Eg.
    + by destruct (Js.trim s).
Qed.

End DateFacts.

(* ===================================================================== *)
(** ** The keys of the purchase side *)
(* ===================================================================== *)

Module PurchaseKeyFacts.
Import Gstr2Reconciliation Text KeyFacts.

Lemma isSeparator_toUpperChar c :
  isSeparator (Js.toUpperChar c) = isSeparator c.
Proof. by destruct c as [[] [] [] [] [] [] [] []]. Qed.

Lemma every_toUpperCase_separator s :
  every (fun c => negb (isSeparator c)) s = true ->
  every (fun c => negb (isSeparator c)) (Js.toUpperCase s) = true.
Proof.
  induction s as [|c s IH]; cbn [every Js.toUpperCase]; [done|].
  intros H. apply andb_true_iff in H as [Hc Hs].
  by rewrite isSeparator_toUpperChar, Hc, IH.
Qed.

(** X27 -- purchase-side keys are canonical.  A number normalized by
    [normalizeInvNo] has no whitespace, hyphen, slash, backslash or dot
    and no lower-case letter, and normalizing it again changes
    nothing. *)
Theorem normalizeInvNo_canonical (o : option string) :
  every (fun c => negb (isSeparator c)) (normalizeInvNo o) = true
  /\ every (fun c => negb (isLower c)) (normalizeInvNo o) = true
  /\ normalizeInvNo (Some (normalizeInvNo o)) = normalizeInvNo o.
Proof.
  assert (Hs : every (fun c => negb (isSeparator c)) (normalizeInvNo o)
               = true).
  { destruct o as [s|]; cbn; [|done]. destruct (Js.truthy s); cbn; [|done].
    apply every_toUpperCase_separator, every_keep_self. }
  assert (Hl : every (fun c => negb (isLower c)) (normalizeInvNo o) = true).
  { destruct o as [s|]; cbn; [|done]. destruct (Js.truthy s); cbn; [|done].
    apply every_toUpperCase. }
  split; [done|]. split; [done|].
  set (k := normalizeInvNo o) in *. clearbody k.
  unfold normalizeInvNo. destruct (Js.truthy k) eqn:E; cbn.
  - by rewrite (keep_every _ k Hs), (toUpperCase_id k Hl).
  - by destruct k.
Qed.

End PurchaseKeyFacts.

(* ===================================================================== *)
(** ** The choice of [findFuzzyMatch2A] *)
(* ===================================================================== *)

Module PurchaseFuzzyFacts.
Import Gstr2Reconciliation PurchaseFacts.




End PurchaseFuzzyFacts.
